(** * express-plus: decorator metadata, route registration, request
      handling and error translation

    A shallow embedding of the TypeScript sources of express-plus
    (src/metadata.ts, src/decorators/*.ts, src/runtime/router.ts,
    src/runtime/handler.ts, src/runtime/application.ts and
    src/errors/http-exceptions.ts) together with the properties the
    specification states about them.

    Conventions of the embedding.
    - A class object is a [ClassRef], which tells the class it extends;
      the own properties the library writes on [target.prototype] under
      its four keys are kept in four finite maps indexed by the class,
      one per key.  Reading a key walks the prototype chain, so a class
      sees what a class it extends holds, and an array or record found
      there is shared: a push through the subclass changes it for both.
    - Property keys are the string-named ones; function references are
      strings.
    - Console output is not part of the modelled state. *)

From Stdlib Require Import ZArith Ascii.
From stdpp Require Import gmap strings list fin_maps sorting.


(** ** JavaScript strings *)

(** [s.startsWith("/")] *)
Definition startsWith_slash (s : string) : bool :=
  match s with
  | String c _ => if decide (c = "/"%char) then true else false
  | EmptyString => false
  end.

(** The number of ["/"] characters a string starts with. *)
Fixpoint leading_slashes (s : string) : nat :=
  match s with
  | String c s' => if decide (c = "/"%char) then S (leading_slashes s') else 0
  | EmptyString => 0
  end.



(** Truthiness of a string: only the empty string is falsy. *)
Definition truthy_string (s : string) : bool :=
  match s with
  | EmptyString => false
  | String _ _ => true
  end.

(** [s.split(sep)] for a one-character separator: never empty, and the
    empty string splits into one empty piece. *)
Fixpoint split (sep : ascii) (s : string) : list string :=
  match s with
  | EmptyString => [EmptyString]
  | String c s' =>
      if decide (c = sep) then EmptyString :: split sep s'
      else match split sep s' with
           | w :: ws => String c w :: ws
           | [] => [String c EmptyString]
           end
  end.

(** [l.join(sep)] *)
Fixpoint join (sep : string) (l : list string) : string :=
  match l with
  | [] => EmptyString
  | [x] => x
  | x :: xs => x +:+ sep +:+ join sep xs
  end.

(** [l.slice(0, e)]: a negative end counts from the end of the array. *)
Definition slice0 {A} (e : Z) (l : list A) : list A :=
  let len := Z.of_nat (length l) in
  let k := if (e <? 0)%Z then Z.max (len + e) 0 else Z.min e len in
  take (Z.to_nat k) l.

(** ** JavaScript values *)

(** The class an object was made by, as far as [instanceof] needs it:
    the built-in ones, the classes of http-exceptions.ts, and classes of
    the application with the class they extend. *)
Inductive ObjectClass :=
  | PlainObject
  | ErrorClass
  | HttpExceptionClass
  | BadRequestExceptionClass
  | UnauthorizedExceptionClass
  | ForbiddenExceptionClass
  | NotFoundExceptionClass
  | ConflictExceptionClass
  | InternalServerErrorExceptionClass
  | UserClass (name : string) (parent : ObjectClass).

#[export] Instance ObjectClass_eq_dec : EqDecision ObjectClass.
Proof. solve_decision. Defined.

#[local] Set Warnings "-register-all".

(** Numbers are integers here; [VRequest] and [VResponse] stand for the
    request and response objects of the request being served. *)
Inductive Value :=
  | VUndefined
  | VNull
  | VBool (b : bool)
  | VNumber (n : Z)
  | VString (s : string)
  | VObject (cls : ObjectClass) (fields : list (string * Value))
  | VRequest
  | VResponse.

(** A call either returns or throws; a rejected promise that is awaited
    is a throw. *)
Inductive Completion (A : Type) :=
  | Return (a : A)
  | Throw (e : Value).
Arguments Return {A} a.
Arguments Throw {A} e.

Definition truthy (v : Value) : bool :=
  match v with
  | VUndefined | VNull => false
  | VBool b => b
  | VNumber n => negb (n =? 0)%Z
  | VString s => truthy_string s
  | VObject _ _ | VRequest | VResponse => true
  end.

(** [a || b] *)
Definition js_or (a b : Value) : Value := if truthy a then a else b.

#[export] Instance Completion_ret : MRet Completion := fun A a => Return a.

#[export] Instance Completion_bind : MBind Completion := fun A B k c =>
  match c with
  | Return a => k a
  | Throw e => Throw e
  end.

#[export] Instance Completion_fmap : FMap Completion := fun A B f c =>
  match c with
  | Return a => Return (f a)
  | Throw e => Throw e
  end.

(** [l.map(f)] where [f] may throw: elements are visited left to right
    and the first throw ends the loop. *)
Fixpoint mapC {A B} (f : A -> Completion B) (l : list A) : Completion (list B) :=
  match l with
  | [] => Return []
  | x :: xs => y ← f x; ys ← mapC f xs; Return (y :: ys)
  end.

Definition new_Error (message : string) : Value :=
  VObject ErrorClass [("message", VString message)].

Definition new_TypeError (message : string) : Value :=
  VObject ErrorClass [("name", VString "TypeError"); ("message", VString message)].

Definition new_RangeError (message : string) : Value :=
  VObject ErrorClass [("name", VString "RangeError"); ("message", VString message)].

Fixpoint assoc_get (k : string) (fs : list (string * Value)) : Value :=
  match fs with
  | [] => VUndefined
  | (k', v) :: fs' => if decide (k = k') then v else assoc_get k fs'
  end.

Fixpoint assoc_set (k : string) (v : Value) (fs : list (string * Value))
  : list (string * Value) :=
  match fs with
  | [] => [(k, v)]
  | (k', v') :: fs' =>
      if decide (k = k') then (k, v) :: fs' else (k', v') :: assoc_set k v fs'
  end.

(** [o.k] for the keys [status], [message], [stack] and [name]: reading
    a property of [undefined] or [null] throws, of another primitive or
    of the request or response object gives [undefined]. *)
Definition get_property (o : Value) (k : string) : Completion Value :=
  match o with
  | VUndefined | VNull => Throw (new_TypeError "Cannot read properties")
  | VObject _ fs => Return (assoc_get k fs)
  | _ => Return VUndefined
  end.

(** [o.k = v] on an object. *)
Definition set_property (k : string) (v : Value) (o : Value) : Value :=
  match o with
  | VObject c fs => VObject c (assoc_set k v fs)
  | _ => o
  end.

(** ** Metadata storage (src/metadata.ts) *)

(** A class object, with the class it [extends]: the prototype of
    [C.prototype] is the prototype of the parent class. *)
Inductive ClassRef :=
  | BaseClass (name : string)
  | SubClass (name : string) (parent : ClassRef).

Coercion BaseClass : string >-> ClassRef.

#[export] Instance ClassRef_eq_dec : EqDecision ClassRef.
Proof. solve_decision. Defined.

Fixpoint class_names (c : ClassRef) : list string :=
  match c with
  | BaseClass n => [n]
  | SubClass n parent => n :: class_names parent
  end.

Fixpoint class_of_names (l : list string) : option ClassRef :=
  match l with
  | [] => None
  | n :: l' =>
      match l' with
      | [] => Some (BaseClass n)
      | _ :: _ => SubClass n <$> class_of_names l'
      end
  end.

#[export] Instance ClassRef_countable : Countable ClassRef.
Proof.
  refine (inj_countable class_names class_of_names _).
  intros c. induction c as [n|n parent IH]; [reflexivity|].
  change (class_names (SubClass n parent)) with (n :: class_names parent).
  destruct (class_names parent) as [|m l] eqn:E.
  - destruct parent; discriminate.
  - change (class_of_names (n :: m :: l))
      with (SubClass n <$> class_of_names (m :: l)).
    rewrite IH. reflexivity.
Defined.

(** The prototype chain of [C.prototype], from the prototype itself up
    to the one of the outermost parent class. *)
Fixpoint prototype_chain (c : ClassRef) : list ClassRef :=
  c :: match c with
       | BaseClass _ => []
       | SubClass _ parent => prototype_chain parent
       end.

(** Reading a property along a chain: the first prototype that has it as
    an own property answers, and is named in the result. *)
Fixpoint chain_lookup {V} (own : ClassRef -> option V) (chain : list ClassRef)
  : option (ClassRef * V) :=
  match chain with
  | [] => None
  | c :: cs =>
      match own c with
      | Some v => Some (c, v)
      | None => chain_lookup own cs
      end
  end.

(** [(target.prototype || target)[KEY]], where [own c] is the own
    property of [c.prototype] under the key. *)
Definition proto_get {V} (own : ClassRef -> option V) (target : ClassRef)
  : option (ClassRef * V) :=
  chain_lookup own (prototype_chain target).

Definition FunctionRef := string.

Record ControllerMetadata := {
  prefix : string;
  controllers : list ClassRef;
}.

Record RouteMetadata := {
  method : string;
  path : string;
  propertyKey : string;
}.

Inductive ParameterType := param | query | body | headers | req | res.

Record ParameterMetadata := {
  type : ParameterType;
  name : option string;
  index : nat;
}.

Record MiddlewareMetadata := {
  classMiddlewares : list FunctionRef;
  methodMiddlewares : gmap string (list FunctionRef);
}.

(** The own properties of every prototype under the four metadata keys.
    [PARAMS_KEY] is indexed by the class and the method name, as the
    source builds one key [`${PARAMS_KEY}_${String(propertyKey)}`] per
    method. *)
Record Metadata := {
  CONTROLLER_KEY : gmap ClassRef ControllerMetadata;
  ROUTES_KEY : gmap ClassRef (list RouteMetadata);
  PARAMS_KEY : gmap (ClassRef * string) (list ParameterMetadata);
  MIDDLEWARE_KEY : gmap ClassRef MiddlewareMetadata;
}.

Definition empty_metadata : Metadata :=
  {| CONTROLLER_KEY := ∅; ROUTES_KEY := ∅; PARAMS_KEY := ∅; MIDDLEWARE_KEY := ∅ |}.

Definition getControllerMetadata (md : Metadata) (target : ClassRef)
  : option ControllerMetadata :=
  snd <$> proto_get (fun c => CONTROLLER_KEY md !! c) target.

(** [proto[ROUTES_KEY] || []] *)
Definition getRouteMetadata (md : Metadata) (target : ClassRef)
  : list RouteMetadata :=
  default [] (snd <$> proto_get (fun c => ROUTES_KEY md !! c) target).

(** [key] is the text [String(propertyKey)] the storage key is built
    from: for a method named by a string, the name itself. *)
Definition getParameterMetadata (md : Metadata) (target : ClassRef)
    (key : string) : list ParameterMetadata :=
  default [] (snd <$> proto_get (fun c => PARAMS_KEY md !! (c, key)) target).

(** An assignment writes an own property of [target.prototype]. *)
Definition setControllerMetadata (md : Metadata) (target : ClassRef)
    (metadata : ControllerMetadata) : Metadata :=
  {| CONTROLLER_KEY := <[target := metadata]> (CONTROLLER_KEY md);
     ROUTES_KEY := ROUTES_KEY md;
     PARAMS_KEY := PARAMS_KEY md;
     MIDDLEWARE_KEY := MIDDLEWARE_KEY md |}.

(** When no array is found along the chain, [proto[ROUTES_KEY] = []]
    makes an own one; the push then goes to the array the read finds,
    which is the own one or the one a parent prototype holds. *)
Definition addRouteMetadata (md : Metadata) (target : ClassRef)
    (route : RouteMetadata) : Metadata :=
  let '(holder, routes) :=
    match proto_get (fun c => ROUTES_KEY md !! c) target with
    | None => (target, [])
    | Some found => found
    end in
  {| CONTROLLER_KEY := CONTROLLER_KEY md;
     ROUTES_KEY := <[holder := routes ++ [route]]> (ROUTES_KEY md);
     PARAMS_KEY := PARAMS_KEY md;
     MIDDLEWARE_KEY := MIDDLEWARE_KEY md |}.

Definition addParameterMetadata (md : Metadata) (target : ClassRef)
    (key : string) (p : ParameterMetadata) : Metadata :=
  let '(holder, storage) :=
    match proto_get (fun c => PARAMS_KEY md !! (c, key)) target with
    | None => (target, [])
    | Some found => found
    end in
  {| CONTROLLER_KEY := CONTROLLER_KEY md;
     ROUTES_KEY := ROUTES_KEY md;
     PARAMS_KEY := <[(holder, key) := storage ++ [p]]> (PARAMS_KEY md);
     MIDDLEWARE_KEY := MIDDLEWARE_KEY md |}.

Definition set_middleware (md : Metadata) (target : ClassRef)
    (mw : MiddlewareMetadata) : Metadata :=
  {| CONTROLLER_KEY := CONTROLLER_KEY md;
     ROUTES_KEY := ROUTES_KEY md;
     PARAMS_KEY := PARAMS_KEY md;
     MIDDLEWARE_KEY := <[target := mw]> (MIDDLEWARE_KEY md) |}.

(** [getMiddlewareMetadata] is a getter that writes: when no record is
    found along the chain it first stores an empty one on the prototype
    itself. *)
Definition getMiddlewareMetadata (md : Metadata) (target : ClassRef)
  : MiddlewareMetadata * Metadata :=
  match proto_get (fun c => MIDDLEWARE_KEY md !! c) target with
  | Some (_, mw) => (mw, md)
  | None =>
      let fresh := {| classMiddlewares := []; methodMiddlewares := ∅ |} in
      (fresh, set_middleware md target fresh)
  end.

(** The prototype that holds the record [getMiddlewareMetadata] returns:
    a push into the record's arrays changes the record there. *)
Definition middleware_holder (md : Metadata) (target : ClassRef) : ClassRef :=
  match proto_get (fun c => MIDDLEWARE_KEY md !! c) target with
  | Some (holder, _) => holder
  | None => target
  end.

Definition addClassMiddleware (md : Metadata) (target : ClassRef)
    (middleware : FunctionRef) : Metadata :=
  let '(metadata, md1) := getMiddlewareMetadata md target in
  set_middleware md1 (middleware_holder md1 target)
    {| classMiddlewares := classMiddlewares metadata ++ [middleware];
       methodMiddlewares := methodMiddlewares metadata |}.

Definition addMethodMiddleware (md : Metadata) (target : ClassRef)
    (key : string) (middleware : FunctionRef) : Metadata :=
  let '(metadata, md1) := getMiddlewareMetadata md target in
  let withKey :=
    match methodMiddlewares metadata !! key with
    | Some _ => methodMiddlewares metadata
    | None => <[key := []]> (methodMiddlewares metadata)
    end in
  set_middleware md1 (middleware_holder md1 target)
    {| classMiddlewares := classMiddlewares metadata;
       methodMiddlewares :=
         <[key := default [] (withKey !! key) ++ [middleware]]> withKey |}.

(** Class middlewares first, then the method's own. *)
Definition getMethodMiddlewares (md : Metadata) (target : ClassRef)
    (key : string) : list FunctionRef * Metadata :=
  let '(metadata, md1) := getMiddlewareMetadata md target in
  let methodMws := default [] (methodMiddlewares metadata !! key) in
  (classMiddlewares metadata ++ methodMws, md1).

(** ** HTTP method decorators (src/decorators/http-methods.ts) *)

(** [path && !path.startsWith('/') ? `/${path}` : path] *)
Definition normalize_path (p : string) : string :=
  if truthy_string p && negb (startsWith_slash p) then "/" +:+ p else p.

(** The decorator factory; [path = None] is the call without argument,
    for which the parameter defaults to the empty string. *)
Definition createRouteDecorator (method : string) (path : option string)
    (target : ClassRef) (propertyKey : string) (md : Metadata) : Metadata :=
  let path := default "" path in
  let normalizedPath := normalize_path path in
  addRouteMetadata md target
    {| method := method; path := normalizedPath; propertyKey := propertyKey |}.

Definition Get := createRouteDecorator "get".
Definition Post := createRouteDecorator "post".
Definition Put := createRouteDecorator "put".
Definition Delete := createRouteDecorator "delete".
Definition Patch := createRouteDecorator "patch".
Definition All := createRouteDecorator "all".

(** ** The controller decorator (src/decorators/controller.ts) *)

Record ControllerOptions := {
  co_path : string;
  co_controllers : option (list ClassRef);
  co_middlewares : option (list FunctionRef);
}.

(** [prefixOrOptions = None] is the call without argument (default [""]). *)
Definition Controller (prefixOrOptions : option (string + ControllerOptions))
    (target : ClassRef) (md : Metadata) : Metadata :=
  let options :=
    match default (inl EmptyString) prefixOrOptions with
    | inl s => {| co_path := s; co_controllers := Some []; co_middlewares := None |}
    | inr o => o
    end in
  let normalizedPrefix :=
    if truthy_string (co_path options) && negb (startsWith_slash (co_path options))
    then "/" +:+ co_path options
    else co_path options in
  let md1 :=
    setControllerMetadata md target
      {| prefix := normalizedPrefix;
         controllers := default [] (co_controllers options) |} in
  match co_middlewares options with
  | Some (m :: ms) =>
      foldl (fun md middleware => addClassMiddleware md target middleware) md1 (m :: ms)
  | _ => md1
  end.

(** ** The middleware decorator (src/decorators/middleware.ts) *)

(** Without a (truthy) property key the decorator sits on a class;
    otherwise on the method [propertyKey] of the class. *)
Definition UseMiddleware (middlewares : list FunctionRef) (target : ClassRef)
    (propertyKey : option string) (md : Metadata) : Metadata :=
  match propertyKey with
  | Some (String c k) =>
      foldl (fun md middleware => addMethodMiddleware md target (String c k) middleware)
        md middlewares
  | _ =>
      foldl (fun md middleware => addClassMiddleware md target middleware)
        md middlewares
  end.

(** ** Parameter decorators (src/decorators/parameters.ts) *)

Definition createParameterDecorator (type : ParameterType) (name : option string)
    (target : ClassRef) (propertyKey : option string) (parameterIndex : nat)
    (md : Metadata) : Completion Metadata :=
  match propertyKey with
  | Some (String c k) =>
      Return (addParameterMetadata md target (String c k)
                {| type := type; name := name; index := parameterIndex |})
  | _ => Throw (new_Error "Parameter decorators can only be used on class methods")
  end.

Definition Param (name : string) := createParameterDecorator param (Some name).
Definition Query (name : string) := createParameterDecorator query (Some name).
Definition Body (name : option string) := createParameterDecorator body name.
Definition Headers (name : string) := createParameterDecorator headers (Some name).
Definition Req := createParameterDecorator req None.
Definition Res := createParameterDecorator res None.

(** ** The resource decorator (src/decorators/resource.ts) *)

Record ResourceOptions := {
  ro_path : string;
  ro_parameters : option (gmap string string);
  ro_controllers : option (list ClassRef);
  ro_middlewares : option (list FunctionRef);
}.

Record ResourceAction := {
  ra_name : string;
  ra_placeholder : bool;
  ra_method : string;
}.

Definition resourceActions : list ResourceAction :=
  [ {| ra_name := "index"; ra_placeholder := false; ra_method := "get" |};
    {| ra_name := "show"; ra_placeholder := true; ra_method := "get" |};
    {| ra_name := "create"; ra_placeholder := false; ra_method := "post" |};
    {| ra_name := "update"; ra_placeholder := true; ra_method := "put" |};
    {| ra_name := "patch"; ra_placeholder := true; ra_method := "patch" |};
    {| ra_name := "delete"; ra_placeholder := true; ra_method := "delete" |} ].

(** [typeof pathOrOptions === "string" ? { path, controllers: [] } : pathOrOptions] *)
Definition resourceOptionsOf (pathOrOptions : string + ResourceOptions)
  : ResourceOptions :=
  match pathOrOptions with
  | inl s => {| ro_path := s; ro_parameters := None;
                ro_controllers := Some []; ro_middlewares := None |}
  | inr o => o
  end.

Section Resource.
(** [pluralize.singular] of the external pluralize package. *)
Variable singular : string -> string.

(** The members of [Object.prototype], which every parameters object
    inherits: [Object_prototype k] is how the engine prints the member
    named [k] inside a template string, [None] when there is none. *)
Variable Object_prototype : string -> option string.

(** [options.parameters?.[segment] || pluralize.singular(segment) + "Id"]:
    without a parameters object the left side is [undefined]; with one,
    an own key answers first, then [Object.prototype], whose members are
    all truthy. *)
Definition placeholder_name (options : ResourceOptions) (segment : string)
  : string :=
  match ro_parameters options with
  | None => singular segment +:+ "Id"
  | Some ps =>
      match ps !! segment with
      | Some p => if truthy_string p then p else singular segment +:+ "Id"
      | None => default (singular segment +:+ "Id") (Object_prototype segment)
      end
  end.

Definition createSegments (options : ResourceOptions) : list string :=
  foldl (fun acc segment =>
           acc ++ [segment; ":" +:+ placeholder_name options segment])
        [] (split "."%char (ro_path options)).

(** One step of [resourceActions.forEach]; [members n] tells whether
    [target.prototype[n]] is truthy. *)
Definition registerAction (target : ClassRef) (members : string -> bool)
    (segments : list string) (md : Metadata) (a : ResourceAction) : Metadata :=
  if negb (members (ra_name a)) then md
  else
    let fullPath :=
      join "/"
        (slice0 (if ra_placeholder a then Z.of_nat (length segments) else (-1)%Z)
                segments) in
    addRouteMetadata md target
      {| method := ra_method a;
         path := "/" +:+ fullPath;
         propertyKey := ra_name a |}.

Definition Resource (pathOrOptions : string + ResourceOptions)
    (target : ClassRef) (members : string -> bool) (md : Metadata) : Metadata :=
  let options := resourceOptionsOf pathOrOptions in
  let segments := createSegments options in
  let md1 :=
    setControllerMetadata md target
      {| prefix := EmptyString;
         controllers := default [] (ro_controllers options) |} in
  foldl (registerAction target members segments) md1 resourceActions.
End Resource.

(** ** The dependency container *)

(** An object made by [new C(...)], known by its [constructor]. *)
Record Instance := { constructor : ClassRef }.

(** Modelled from the spec: [Container.get] of src/container/container.ts,
    which is not among the sources; the specification describes the
    container as a keyed singleton registry: [get] makes the instance on
    first use and returns the same one afterwards.  An instance is known
    by its class alone: what the container passes to the constructor is
    not part of the model. *)
Definition Container_get (c : gmap ClassRef Instance) (key : ClassRef)
  : Instance * gmap ClassRef Instance :=
  match c !! key with
  | Some i => (i, c)
  | None => let i := {| constructor := key |} in (i, <[key := i]> c)
  end.

(** ** Controller registration (src/runtime/router.ts) *)

(** What [app.get(path, ...handlers)] and its siblings receive: each
    handler is a middleware function or the closure [createHandler]
    returns, known by the instance and method name it captured. *)
Inductive Handler :=
  | MiddlewareFn (f : FunctionRef)
  | RouteHandler (controllerInstance : Instance) (propertyKey : string).

Record Route := {
  route_method : string;
  route_path : string;
  route_handlers : list Handler;
}.

(** Metadata tables, the route table of the Express application in
    registration order, and the container. *)
Record World := {
  metadata : Metadata;
  app : list Route;
  container : gmap ClassRef Instance;
}.

(** The body of [for (const route of routes)].  The method the route
    names is taken to exist on the instance; [bind] on a missing one
    would throw, which is not part of the model. *)
Definition registerRoute (Controller : ClassRef) (controllerInstance : Instance)
    (fullPrefix : string) (w : World) (route : RouteMetadata) : World :=
  let fullPath := fullPrefix +:+ path route in
  let '(middlewares, md1) :=
    getMethodMiddlewares (metadata w) Controller (propertyKey route) in
  let handler := RouteHandler controllerInstance (propertyKey route) in
  let handlers := (MiddlewareFn <$> middlewares) ++ [handler] in
  {| metadata := md1;
     app := app w ++ [{| route_method := method route;
                         route_path := fullPath;
                         route_handlers := handlers |}];
     container := container w |}.

(** The first half of [registerController], [if (routes.length > 0)]:
    the controller is instantiated through the container and its own
    routes are registered in the order of the route list. *)
Definition registerOwnRoutes (w : World) (Controller : ClassRef)
    (fullPrefix : string) : World :=
  let routes := getRouteMetadata (metadata w) Controller in
  match routes with
  | [] => w
  | _ :: _ =>
      let '(controllerInstance, c1) := Container_get (container w) Controller in
      foldl (registerRoute Controller controllerInstance fullPrefix)
        {| metadata := metadata w; app := app w; container := c1 |}
        routes
  end.

(** [fuel] bounds the depth of the recursion into nested controllers;
    [None] means the bound was too small. *)
Fixpoint registerController (fuel : nat) (w : World) (Controller : ClassRef)
    (isDev : bool) (parentPrefix : string) : option World :=
  match fuel with
  | O => None
  | S fuel' =>
      match getControllerMetadata (metadata w) Controller with
      | None => Some w
      | Some controllerMetadata =>
          let fullPrefix := parentPrefix +:+ prefix controllerMetadata in
          let w1 := registerOwnRoutes w Controller fullPrefix in
          foldl (fun ow ChildController =>
                   ow ≫= fun w' =>
                     registerController fuel' w' ChildController isDev fullPrefix)
                (Some w1) (controllers controllerMetadata)
      end
  end.

(** ** Request handling (src/runtime/handler.ts) *)

(** What the handler reads from the platform's request object:
    [req.params[k]], [req.query[k]], [req.body], [req.body[k]] and
    [req.get(name)], the last two of which may throw. *)
Record Request := {
  req_params : string -> Value;
  req_query : string -> Value;
  req_body : Value;
  req_body_prop : string -> Completion Value;
  req_get : option string -> Completion Value;
}.

(** [res.json(v)] may throw (a value that cannot be serialized), and so
    may [res.status(code)] (a code the platform does not accept as a
    status). *)
Record Response := {
  json : Value -> Completion unit;
  status : Value -> Completion unit;
}.

(** An absent name used as a property key reads the key ["undefined"]. *)
Definition property_key (name : option string) : string :=
  default "undefined" name.

(** [(a, b) => a.index - b.index] *)
Definition compareIndex (a b : ParameterMetadata) : Z :=
  (Z.of_nat (index a) - Z.of_nat (index b))%Z.

(** [Array.prototype.sort] is stable; with a consistent comparator its
    result is the one of any stable sort, here insertion from the right. *)
Fixpoint sort_insert {A} (cmp : A -> A -> Z) (x : A) (l : list A) : list A :=
  match l with
  | [] => [x]
  | y :: ys =>
      if (cmp x y <=? 0)%Z then x :: y :: ys else y :: sort_insert cmp x ys
  end.

Fixpoint sort {A} (cmp : A -> A -> Z) (l : list A) : list A :=
  match l with
  | [] => []
  | x :: xs => sort_insert cmp x (sort cmp xs)
  end.

(** The body of the [switch] over the six source kinds. *)
Definition resolveParameter (rq : Request) (p : ParameterMetadata)
  : Completion Value :=
  match type p with
  | param => Return (req_params rq (property_key (name p)))
  | query => Return (req_query rq (property_key (name p)))
  | body =>
      match name p with
      | Some (String c n) => req_body_prop rq (String c n)
      | _ => Return (req_body rq)
      end
  | headers => req_get rq (name p)
  | req => Return VRequest
  | res => Return VResponse
  end.

Definition resolveParameters (params : list ParameterMetadata) (rq : Request)
  : Completion (list Value) :=
  let sortedParams := sort compareIndex params in
  mapC (resolveParameter rq) sortedParams.

(** The calls a handler makes on the response and on [next], in order,
    next to how it completes. *)
Inductive Call :=
  | res_status (code : Value)
  | res_json (v : Value)
  | next (error : Value).

Definition Eff (A : Type) : Type := list Call * Completion A.

Definition retE {A} (a : A) : Eff A := ([], Return a).

Definition bindE {A B} (m : Eff A) (k : A -> Eff B) : Eff B :=
  match m with
  | (t, Return a) => let '(t', r) := k a in (t ++ t', r)
  | (t, Throw e) => (t, Throw e)
  end.

Notation "'let*' x := m 'in' k" := (bindE m (fun x => k))
  (at level 10, x name, m at level 100, k at level 200, only parsing).

Definition liftE {A} (c : Completion A) : Eff A := ([], c).

(** [try { body } catch (error) { handler(error) }] *)
Definition try_catch {A} (body : Eff A) (handler : Value -> Eff A) : Eff A :=
  match body with
  | (t, Return a) => (t, Return a)
  | (t, Throw e) => let '(t', r) := handler e in (t ++ t', r)
  end.

Definition call_json (rs : Response) (v : Value) : Eff unit :=
  ([res_json v], json rs v).

Definition call_status (rs : Response) (code : Value) : Eff unit :=
  ([res_status code], status rs code).

Definition call_next (error : Value) : Eff unit :=
  ([next error], Return tt).

(** The request callback built by [createHandler]: [method] is the bound
    controller method, awaited, with the calls it makes itself; [md] is
    the metadata at the time of the request. *)
Definition createHandler (controllerInstance : Instance)
    (method : list Value -> Eff Value) (propertyKey : string)
    (md : Metadata) (rq : Request) (rs : Response) : Eff unit :=
  try_catch
    (let params :=
       getParameterMetadata md (constructor controllerInstance) propertyKey in
     let* args := liftE (resolveParameters params rq) in
     let* result := method args in
     match result with
     | VUndefined => retE tt
     | _ => call_json rs result
     end)
    (fun error => call_next error).

(** ** HTTP exceptions (src/errors/http-exceptions.ts) *)

(** [new C(...)] for [C] the base class or a subclass reaching the base
    constructor through [super]: [stack] is the trace the engine records. *)
Definition construct_HttpException (cls : ObjectClass) (status : Z)
    (message stack : string) : Value :=
  VObject cls
    [("message", VString message); ("stack", VString stack);
     ("status", VNumber status); ("name", VString "HttpException")].

Definition HttpException (status : Z) (message stack : string) : Value :=
  construct_HttpException HttpExceptionClass status message stack.

Definition BadRequestException (message : option string) (stack : string) : Value :=
  set_property "name" (VString "BadRequestException")
    (construct_HttpException BadRequestExceptionClass 400
       (default "Bad Request" message) stack).

Definition UnauthorizedException (message : option string) (stack : string) : Value :=
  set_property "name" (VString "UnauthorizedException")
    (construct_HttpException UnauthorizedExceptionClass 401
       (default "Unauthorized" message) stack).

Definition ForbiddenException (message : option string) (stack : string) : Value :=
  set_property "name" (VString "ForbiddenException")
    (construct_HttpException ForbiddenExceptionClass 403
       (default "Forbidden" message) stack).

Definition NotFoundException (message : option string) (stack : string) : Value :=
  set_property "name" (VString "NotFoundException")
    (construct_HttpException NotFoundExceptionClass 404
       (default "Not Found" message) stack).

Definition ConflictException (message : option string) (stack : string) : Value :=
  set_property "name" (VString "ConflictException")
    (construct_HttpException ConflictExceptionClass 409
       (default "Conflict" message) stack).

Definition InternalServerErrorException (message : option string) (stack : string)
  : Value :=
  set_property "name" (VString "InternalServerErrorException")
    (construct_HttpException InternalServerErrorExceptionClass 500
       (default "Internal Server Error" message) stack).

(** The classes http-exceptions.ts declares with [extends HttpException]. *)
Definition extends_HttpException (c : ObjectClass) : bool :=
  match c with
  | BadRequestExceptionClass | UnauthorizedExceptionClass
  | ForbiddenExceptionClass | NotFoundExceptionClass
  | ConflictExceptionClass | InternalServerErrorExceptionClass => true
  | _ => false
  end.

(** [HttpException.prototype] is on the prototype chain of the class. *)
Fixpoint inherits_HttpException (c : ObjectClass) : bool :=
  match c with
  | HttpExceptionClass => true
  | UserClass _ parent => inherits_HttpException parent
  | c => extends_HttpException c
  end.

(** [err instanceof HttpException] *)
Definition instanceof_HttpException (err : Value) : bool :=
  match err with
  | VObject c _ => inherits_HttpException c
  | _ => false
  end.

(** ** The global error handler (src/runtime/application.ts) *)

Record ErrorBody := {
  statusCode : Value;
  message : Value;
  stack : option Value;
}.

(** The object literal
    [{ statusCode, message, ...(isDev && { stack }) }]. *)
Definition body_object (b : ErrorBody) : Value :=
  VObject PlainObject
    ([("statusCode", statusCode b); ("message", message b)]
     ++ match stack b with
        | Some stk => [("stack", stk)]
        | None => []
        end).

(** The error handler of the [ExpressPlus] constructor, [isDev] being
    the field its closure reads: what it calls on the response, and how
    it completes. *)
Definition errorHandler (isDev : bool) (err : Value) (rs : Response) : Eff unit :=
  if instanceof_HttpException err then
    let* code := liftE (get_property err "status") in
    let* _ := call_status rs code in
    let* code' := liftE (get_property err "status") in
    let* msg := liftE (get_property err "message") in
    let* stk := liftE (if isDev then Some <$> get_property err "stack"
                       else Return None) in
    call_json rs (body_object {| statusCode := code'; message := msg; stack := stk |})
  else
    let* s := liftE (get_property err "status") in
    let code := js_or s (VNumber 500) in
    let* m := liftE (get_property err "message") in
    let msg := js_or m (VString "Internal Server Error") in
    let* _ := call_status rs code in
    let* stk := liftE (if isDev then Some <$> get_property err "stack"
                       else Return None) in
    call_json rs (body_object {| statusCode := code; message := msg; stack := stk |}).

(** The status and the body of a call [res.status(s).json(b)]. *)
Record ErrorResponse := {
  sent_status : Value;
  sent_body : ErrorBody;
}.

(** [res.status(s).json(b)]: the body is handed to [json] only when
    [status] has returned. *)
Definition respond (rs : Response) (r : ErrorResponse) : Eff unit :=
  let* _ := call_status rs (sent_status r) in
  call_json rs (body_object (sent_body r)).


(** ** Observations used in the statements *)

(** [proto[MIDDLEWARE_KEY]], read along the prototype chain. *)
Definition middlewareRecord (md : Metadata) (c : ClassRef)
  : option MiddlewareMetadata :=
  snd <$> proto_get (λ c, MIDDLEWARE_KEY md !! c) c.

(** What a reader of the middleware key sees, whether or not the record
    has been created yet. *)
Definition classMiddlewaresOf (md : Metadata) (c : ClassRef) : list FunctionRef :=
  default [] (classMiddlewares <$> middlewareRecord md c).

Definition methodMiddlewaresOf (md : Metadata) (c : ClassRef) (key : string)
  : list FunctionRef :=
  default [] (middlewareRecord md c ≫= λ mw, methodMiddlewares mw !! key).

(** The instance [container.get] answers with. *)
Definition instanceOf (ct : gmap ClassRef Instance) (c : ClassRef) : Instance :=
  default {| constructor := c |} (ct !! c).

(** Two metadata tables no reader can tell apart. *)
Definition same_meta (md md' : Metadata) : Prop :=
  CONTROLLER_KEY md = CONTROLLER_KEY md'
  ∧ ROUTES_KEY md = ROUTES_KEY md'
  ∧ PARAMS_KEY md = PARAMS_KEY md'
  ∧ (∀ c, classMiddlewaresOf md c = classMiddlewaresOf md' c)
  ∧ (∀ c key, methodMiddlewaresOf md c key = methodMiddlewaresOf md' c key).

Definition same_world (w w' : World) : Prop :=
  same_meta (metadata w) (metadata w')
  ∧ ∀ c, instanceOf (container w) c = instanceOf (container w') c.

(** The route [registerController] hands to Express for the route [r] of
    class [c] under the prefix [fullPrefix]. *)
Definition route_entry (w : World) (c : ClassRef) (fullPrefix : string)
    (r : RouteMetadata) : Route :=
  {| route_method := method r;
     route_path := fullPrefix +:+ path r;
     route_handlers :=
       (MiddlewareFn <$> classMiddlewaresOf (metadata w) c)
       ++ (MiddlewareFn <$> methodMiddlewaresOf (metadata w) c (propertyKey r))
       ++ [RouteHandler (instanceOf (container w) c) (propertyKey r)] |}.










(** Two classes whose prototype chains have no prototype in common:
    neither extends the other, and they extend no common class. *)
Definition unrelated (c c' : ClassRef) : Prop :=
  Forall (λ x, x ∉ prototype_chain c') (prototype_chain c).

#[export] Instance unrelated_dec c c' : Decision (unrelated c c').
Proof. unfold unrelated. apply _. Defined.

(** The subclasses of [HttpException] the library ships. *)
Definition canned_classes : list ObjectClass :=
  [ BadRequestExceptionClass; UnauthorizedExceptionClass;
    ForbiddenExceptionClass; NotFoundExceptionClass;
    ConflictExceptionClass; InternalServerErrorExceptionClass ].

(** The stack is part of the body only in development mode. *)
Definition stack_field (isDev : bool) (stk : Value) : option Value :=
  if isDev then Some stk else None.

(** The route [Resource] stores for an action. *)
Definition action_route (segments : list string) (a : ResourceAction)
  : RouteMetadata :=
  {| method := ra_method a;
     path := "/" +:+ join "/" (if ra_placeholder a then segments
                               else removelast segments);
     propertyKey := ra_name a |}.

(** Order of two parameter entries by declared index. *)
Definition le_index (a b : ParameterMetadata) : Prop := index a ≤ index b.
Definition lt_index (a b : ParameterMetadata) : Prop := index a < index b.

(** A string that can follow another one without a separator going
    missing: it is empty or begins with a slash. *)
Definition separated (s : string) : bool :=
  negb (truthy_string s) || startsWith_slash s.




(** The metadata tables that applying decorators can produce. *)
Inductive Decorated : Metadata → Prop :=
  | Decorated_none : Decorated empty_metadata
  | Decorated_Controller md arg target :
      Decorated md → Decorated (Controller arg target md)
  | Decorated_Resource singular Object_prototype md arg target members :
      Decorated md → Decorated (Resource singular Object_prototype arg target members md)
  | Decorated_route md verb p target key :
      Decorated md → Decorated (createRouteDecorator verb p target key md)
  | Decorated_UseMiddleware md mws target key :
      Decorated md → Decorated (UseMiddleware mws target key md)
  | Decorated_parameter md ty name target key i md' :
      Decorated md →
      createParameterDecorator ty name target key i md = Return md' →
      Decorated md'.



(** ** Example programs *)




(** A response object that accepts every status and every body. *)
Definition lenient_response : Response :=
  {| json := λ _, Return tt; status := λ _, Return tt |}.

(** A response object that accepts every body and, for a status, the
    integers from 100 to 999. *)
Definition strict_response : Response :=
  {| json := λ _, Return tt;
     status := λ code,
       match code with
       | VNumber n =>
           if (100 <=? n)%Z && (n <=? 999)%Z then Return tt
           else Throw (new_RangeError "Invalid status code")
       | _ => Throw (new_TypeError "Invalid status code")
       end |}.

(** [@Controller('/users')] over [@Get('/')], and a class
    [AdminController extends UserController] that carries no decorator
    of its own. *)
Definition users_metadata : Metadata :=
  Controller (Some (inl "/users")) "UserController"
    (Get (Some "/") "UserController" "list" empty_metadata).

Definition AdminController : ClassRef :=
  SubClass "AdminController" "UserController".

(** A request whose route and query parameters can be told apart. *)
Definition sample_request : Request :=
  {| req_params := λ k, VString ("param:" +:+ k);
     req_query := λ k, VString ("query:" +:+ k);
     req_body := VUndefined;
     req_body_prop := λ _, Throw (new_TypeError "Cannot read properties");
     req_get := λ _, Return VUndefined |}.

(** [getPost(@Param("userId") userId, @Param("postId") postId)]:
    parameter decorators run from the last parameter to the first. *)
Definition getPost_params : list ParameterMetadata :=
  [ {| type := param; name := Some "postId"; index := 1 |};
    {| type := param; name := Some "userId"; index := 0 |} ].

(** A stand-in for [pluralize.singular] on regular plurals: it drops a
    final ["s"]. *)
Fixpoint drop_final_s (s : string) : string :=
  match s with
  | String c EmptyString => if decide (c = "s"%char) then EmptyString else s
  | String c s' => String c (drop_final_s s')
  | EmptyString => EmptyString
  end.

(** A stand-in for the members of [Object.prototype] and the way Node
    prints them. *)
Definition Object_members (k : string) : option string :=
  if decide (k = "toString") then Some "function toString() { [native code] }"
  else if decide (k = "valueOf") then Some "function valueOf() { [native code] }"
  else if decide (k = "constructor") then Some "function Object() { [native code] }"
  else if decide (k = "hasOwnProperty")
       then Some "function hasOwnProperty() { [native code] }"
  else None.



(** ** Application bootstrap (src/runtime/application.ts) *)






(** ** The Vite plugin (src/vite-plugin/index.ts) *)

(** [s.endsWith(suffix)] *)
Fixpoint endsWith (suffix s : string) : bool :=
  bool_decide (s = suffix)
  || match s with
     | String _ s' => endsWith suffix s'
     | EmptyString => false
     end.

(** [s.startsWith(p)] *)
Fixpoint startsWith (p s : string) : bool :=
  match p, s with
  | EmptyString, _ => true
  | String a p', String b s' => bool_decide (a = b) && startsWith p' s'
  | String _ _, EmptyString => false
  end.

(** [s.includes(sub)] *)
Fixpoint includes (sub s : string) : bool :=
  startsWith sub s
  || match s with
     | String _ s' => includes sub s'
     | EmptyString => false
     end.

(** The [transform] hook; [None] is [null], which leaves the module as it
    is. *)
Definition transform (code id : string) : option string :=
  if negb (endsWith ".ts" id) && negb (endsWith ".tsx" id) then None
  else if negb (includes "@Controller" code) && negb (includes "@Injectable" code)
       then None
       else None.

(** ** Further observations *)

(** Parameter decorators applied one after the other to the method
    [key] of [target]; each entry tells the decorator's kind, name and
    the index of the parameter it sits on. *)
Fixpoint decorateParameters (target : ClassRef) (key : option string)
    (entries : list ParameterMetadata) (md : Metadata) : Completion Metadata :=
  match entries with
  | [] => Return md
  | e :: es =>
      md1 ← createParameterDecorator (type e) (name e) target key (index e) md;
      decorateParameters target key es md1
  end.

(** The metadata of a method whose parameters are, in declaration order,
    decorated once each with the given kinds and names. *)
Definition declared (decl : list (ParameterType * option string))
  : list ParameterMetadata :=
  imap (λ i tn, {| type := tn.1; name := tn.2; index := i |}) decl.

(** The source kinds whose resolution reads a plain property or hands
    over the request or response object. *)
Definition reads_plainly (p : ParameterMetadata) : bool :=
  match type p with
  | param | query | req | res => true
  | body => match name p with
            | Some (String _ _) => false
            | _ => true
            end
  | headers => false
  end.


(** The options the controller decorator works with. *)
Definition controllerOptionsOf (prefixOrOptions : option (string + ControllerOptions))
  : ControllerOptions :=
  match default (inl EmptyString) prefixOrOptions with
  | inl s => {| co_path := s; co_controllers := Some []; co_middlewares := None |}
  | inr o => o
  end.

(** Route decorators applied one after the other to methods of [target]:
    each entry gives the verb, the path argument and the method name. *)
Definition decorateRoutes (target : ClassRef)
    (decls : list (string * option string * string)) (md : Metadata) : Metadata :=
  foldl (λ md d, createRouteDecorator d.1.1 d.1.2 target d.2 md) md decls.

(** * Properties *)

(** ** Worked examples *)

Example split_dotted_name :
  split "."%char "blogs.comments.likes" = ["blogs"; "comments"; "likes"].
Proof. reflexivity. Qed.

Example split_keeps_empty_pieces : split "."%char "a..b." = ["a"; ""; "b"; ""].
Proof. reflexivity. Qed.

Example createSegments_nested_resource :
  createSegments drop_final_s Object_members (resourceOptionsOf (inl "blogs.comments.likes"))
  = ["blogs"; ":blogId"; "comments"; ":commentId"; "likes"; ":likeId"].
Proof. reflexivity. Qed.

Example Resource_index_and_show :
  getRouteMetadata
    (Resource drop_final_s Object_members (inl "blogs.comments") "BlogCommentsResource"
       (λ n, bool_decide (n ∈ ["index"; "show"])) empty_metadata)
    "BlogCommentsResource"
  = [ {| method := "get"; path := "/blogs/:blogId/comments";
         propertyKey := "index" |};
      {| method := "get"; path := "/blogs/:blogId/comments/:commentId";
         propertyKey := "show" |} ].
Proof. reflexivity. Qed.

Example sort_is_stable :
  sort compareIndex
    [ {| type := param; name := Some "a"; index := 2 |};
      {| type := query; name := Some "b"; index := 0 |};
      {| type := body; name := None; index := 2 |} ]
  = [ {| type := query; name := Some "b"; index := 0 |};
      {| type := param; name := Some "a"; index := 2 |};
      {| type := body; name := None; index := 2 |} ].
Proof. reflexivity. Qed.

Example resolveParameters_result_is_dense :
  resolveParameters [ {| type := param; name := Some "id"; index := 1 |} ]
    sample_request
  = Return [VString "param:id"].
Proof. reflexivity. Qed.

Example errorHandler_hides_stack_in_production (rs : Response) :
  errorHandler false (NotFoundException (Some "User not found") "trace") rs
  = respond rs {| sent_status := VNumber 404;
                  sent_body := {| statusCode := VNumber 404;
                                  message := VString "User not found";
                                  stack := None |} |}.
Proof. cbv -[status json]. by destruct (status rs _). Qed.

Example errorHandler_plain_error (rs : Response) :
  errorHandler true
    (VObject ErrorClass [("message", VString "boom"); ("stack", VString "trace")])
    rs
  = respond rs {| sent_status := VNumber 500;
                  sent_body := {| statusCode := VNumber 500;
                                  message := VString "boom";
                                  stack := Some (VString "trace") |} |}.
Proof. cbv -[status json]. by destruct (status rs _). Qed.

Example subclass_reads_parent_routes :
  getRouteMetadata (Get (Some "/") "UserController" "list" empty_metadata)
    (SubClass "AdminController" "UserController")
  = [ {| method := "get"; path := "/"; propertyKey := "list" |} ].
Proof. reflexivity. Qed.

Example subclass_pushes_into_parent_routes :
  getRouteMetadata
    (Get (Some "/audit") (SubClass "AdminController" "UserController") "audit"
       (Get (Some "/") "UserController" "list" empty_metadata))
    "UserController"
  = [ {| method := "get"; path := "/"; propertyKey := "list" |};
      {| method := "get"; path := "/audit"; propertyKey := "audit" |} ].
Proof. reflexivity. Qed.

(** ** Strings *)


Lemma append_String (c : ascii) (a b : string) :
  String c a +:+ b = String c (a +:+ b).
Proof. reflexivity. Qed.










Lemma separated_normalize_path (p : string) :
  separated (normalize_path p) = true.
Proof.
  unfold normalize_path, separated.
  destruct p as [|c p]; [done|].
  destruct (startsWith_slash (String c p)) eqn:Hs; simpl; [exact Hs|done].
Qed.

(** ** Prototype chains *)

Lemma prototype_chain_head c : ∃ cs, prototype_chain c = c :: cs.
Proof. destruct c; by eexists. Qed.

Lemma prototype_chain_self c : c ∈ prototype_chain c.
Proof. destruct c; apply list_elem_of_here. Qed.

Lemma prototype_chain_names c x :
  x ∈ prototype_chain c → length (class_names x) ≤ length (class_names c).
Proof.
  induction c as [n|n parent IH]; simpl; intros Hx.
  - apply elem_of_cons in Hx as [->|Hx]; [done|by apply elem_of_nil in Hx].
  - apply elem_of_cons in Hx as [->|Hx]; [done|]. specialize (IH Hx). lia.
Qed.

Lemma subclass_not_in_chain n c : SubClass n c ∉ prototype_chain c.
Proof.
  intros Hin. apply prototype_chain_names in Hin. simpl in Hin. lia.
Qed.

Lemma prototype_chain_trans a b c :
  a ∈ prototype_chain b → b ∈ prototype_chain c → a ∈ prototype_chain c.
Proof.
  intros Hab. induction c as [n|n parent IH]; simpl; intros Hbc.
  - apply elem_of_cons in Hbc as [->|Hbc]; [done|by apply elem_of_nil in Hbc].
  - apply elem_of_cons in Hbc as [->|Hbc]; [done|].
    apply list_elem_of_further. by apply IH.
Qed.

Lemma chain_lookup_ext {V} (own own' : ClassRef → option V) chain :
  (∀ c, c ∈ chain → own' c = own c) →
  chain_lookup own' chain = chain_lookup own chain.
Proof.
  induction chain as [|c cs IH]; intros Hext; [done|]. simpl.
  rewrite (Hext c) by apply list_elem_of_here.
  destruct (own c); [done|]. apply IH. intros x Hx. apply Hext.
  by apply list_elem_of_further.
Qed.

Lemma chain_lookup_Some {V} (own : ClassRef → option V) chain o v :
  chain_lookup own chain = Some (o, v) → o ∈ chain ∧ own o = Some v.
Proof.
  induction chain as [|c cs IH]; [done|]. simpl.
  destruct (own c) as [x|] eqn:Hc.
  - intros [= <- <-]. split; [apply list_elem_of_here|done].
  - intros H. destruct (IH H). split; [by apply list_elem_of_further|done].
Qed.

Lemma chain_lookup_None {V} (own : ClassRef → option V) chain c :
  chain_lookup own chain = None → c ∈ chain → own c = None.
Proof.
  induction chain as [|x xs IH]; intros Hl Hin; [by apply elem_of_nil in Hin|].
  simpl in Hl. destruct (own x) eqn:Hx; [done|].
  apply elem_of_cons in Hin as [->|Hin]; [done|]. by apply IH.
Qed.

Lemma chain_lookup_empty {V} (own : ClassRef → option V) chain :
  (∀ c, c ∈ chain → own c = None) → chain_lookup own chain = None.
Proof.
  induction chain as [|c cs IH]; intros Hnone; [done|]. simpl.
  rewrite Hnone by apply list_elem_of_here. apply IH. intros x Hx.
  by apply Hnone, list_elem_of_further.
Qed.


Lemma proto_get_own {V} (own : ClassRef → option V) c v :
  own c = Some v → proto_get own c = Some (c, v).
Proof.
  intros Hc. unfold proto_get. destruct (prototype_chain_head c) as [cs ->].
  simpl. by rewrite Hc.
Qed.

Lemma proto_get_parent {V} (own : ClassRef → option V) n c :
  own (SubClass n c) = None → proto_get own (SubClass n c) = proto_get own c.
Proof. intros Hc. unfold proto_get. simpl. by rewrite Hc. Qed.

(** Writing the property of a prototype that has it changes what is read
    exactly where that prototype answered. *)
Lemma chain_lookup_update {V} (own own' : ClassRef → option V) o v chain :
  is_Some (own o) → own' o = Some v → (∀ c, c ≠ o → own' c = own c) →
  chain_lookup own' chain
  = (λ found, if decide (found.1 = o) then (o, v) else found)
    <$> chain_lookup own chain.
Proof.
  intros [v0 Ho] Ho' Hext. induction chain as [|c cs IH]; [done|]. simpl.
  destruct (decide (c = o)) as [->|Hne].
  - rewrite Ho, Ho'. simpl. by rewrite decide_True.
  - rewrite (Hext c Hne). destruct (own c); [|done].
    simpl. by rewrite decide_False.
Qed.

(** Making the property on a prototype that finds none along its chain
    changes what is read exactly where nothing was found and the new
    holder is on the chain. *)
Lemma proto_get_create {V} (own own' : ClassRef → option V) t v c :
  proto_get own t = None → own' t = Some v → (∀ c, c ≠ t → own' c = own c) →
  proto_get own' c
  = match proto_get own c with
    | Some found => Some found
    | None => if decide (t ∈ prototype_chain c) then Some (t, v) else None
    end.
Proof.
  intros Hnone Ht Hext.
  assert (Hown : own t = None).
  { eapply chain_lookup_None; [exact Hnone|apply prototype_chain_self]. }
  assert (Hstep : ∀ c rest,
    chain_lookup own' rest
    = match chain_lookup own rest with
      | Some found => Some found
      | None => if decide (t ∈ rest) then Some (t, v) else None
      end →
    c ≠ t →
    chain_lookup own' (c :: rest)
    = match chain_lookup own (c :: rest) with
      | Some found => Some found
      | None => if decide (t ∈ c :: rest) then Some (t, v) else None
      end).
  { intros x rest IH Hne. cbn [chain_lookup]. rewrite (Hext x Hne).
    destruct (own x); [done|]. rewrite IH.
    destruct (chain_lookup own rest); [done|].
    destruct (decide (t ∈ rest)) as [Hin|Hin].
    - rewrite decide_True; [done|by apply list_elem_of_further].
    - rewrite decide_False; [done|].
      intros [->|?]%elem_of_cons; [done|done]. }
  assert (Hself : proto_get own' t
                  = match proto_get own t with
                    | Some found => Some found
                    | None => if decide (t ∈ prototype_chain t)
                              then Some (t, v) else None
                    end).
  { rewrite Hnone, (proto_get_own own' t v Ht).
    rewrite decide_True; [done|apply prototype_chain_self]. }
  unfold proto_get in *.
  induction c as [n|n parent IH].
  - destruct (decide (BaseClass n = t)) as [<-|Hne]; [exact Hself|].
    apply Hstep; [|done]. cbn [chain_lookup]. rewrite decide_False; [done|].
    intros H. by apply elem_of_nil in H.
  - destruct (decide (SubClass n parent = t)) as [<-|Hne]; [exact Hself|].
    change (prototype_chain (SubClass n parent))
      with (SubClass n parent :: prototype_chain parent).
    by apply Hstep.
Qed.

(** ** Metadata accessors *)

Lemma getRouteMetadata_addRouteMetadata md target route :
  getRouteMetadata (addRouteMetadata md target route) target
  = getRouteMetadata md target ++ [route].
Proof.
  unfold getRouteMetadata, addRouteMetadata.
  destruct (proto_get (λ c, ROUTES_KEY md !! c) target) as [[o rs]|] eqn:Hget;
    simpl.
  - destruct (chain_lookup_Some _ _ _ _ Hget) as [_ Ho].
    unfold proto_get in *.
    rewrite (chain_lookup_update (λ c, ROUTES_KEY md !! c) _ o (rs ++ [route])).
    + rewrite Hget. simpl. by rewrite decide_True.
    + by eexists.
    + apply lookup_insert_eq.
    + intros c Hc. by apply lookup_insert_ne.
  - rewrite (proto_get_create (λ c, ROUTES_KEY md !! c) _ target [route]).
    + rewrite Hget. rewrite decide_True; [done|apply prototype_chain_self].
    + done.
    + apply lookup_insert_eq.
    + intros c Hc. by apply lookup_insert_ne.
Qed.

Lemma addRouteMetadata_other_keys md target route :
  CONTROLLER_KEY (addRouteMetadata md target route) = CONTROLLER_KEY md
  ∧ PARAMS_KEY (addRouteMetadata md target route) = PARAMS_KEY md
  ∧ MIDDLEWARE_KEY (addRouteMetadata md target route) = MIDDLEWARE_KEY md.
Proof.
  unfold addRouteMetadata.
  by destruct (proto_get (λ c, ROUTES_KEY md !! c) target) as [[??]|].
Qed.

Lemma addParameterMetadata_other_keys md target key p :
  CONTROLLER_KEY (addParameterMetadata md target key p) = CONTROLLER_KEY md
  ∧ ROUTES_KEY (addParameterMetadata md target key p) = ROUTES_KEY md
  ∧ MIDDLEWARE_KEY (addParameterMetadata md target key p) = MIDDLEWARE_KEY md.
Proof.
  unfold addParameterMetadata.
  by destruct (proto_get (λ c, PARAMS_KEY md !! (c, key)) target) as [[??]|].
Qed.


(** A class none of whose prototypes is on the chain of the target does
    not see the push. *)
Lemma getRouteMetadata_addRouteMetadata_apart md target route c :
  (∀ x, x ∈ prototype_chain target → x ∉ prototype_chain c) →
  getRouteMetadata (addRouteMetadata md target route) c = getRouteMetadata md c.
Proof.
  intros Hapart. unfold getRouteMetadata, addRouteMetadata, proto_get.
  assert (Hext : ∀ o v,
            o ∈ prototype_chain target →
            chain_lookup (λ x, <[o := v]> (ROUTES_KEY md) !! x) (prototype_chain c)
            = chain_lookup (λ x, ROUTES_KEY md !! x) (prototype_chain c)).
  { intros o v Ho. apply chain_lookup_ext. intros x Hx.
    apply lookup_insert_ne. intros ->. by apply (Hapart x). }
  destruct (chain_lookup (λ c, ROUTES_KEY md !! c) (prototype_chain target))
    as [[o rs]|] eqn:Hget; simpl.
  - rewrite Hext; [done|]. by apply chain_lookup_Some in Hget as [? _].
  - rewrite Hext; [done|]. apply prototype_chain_self.
Qed.

Lemma leading_slashes_startsWith s :
  startsWith_slash s = false → leading_slashes s = 0.
Proof.
  destruct s as [|c s]; simpl; [done|]. by destruct (decide (c = "/"%char)).
Qed.

(** ** HTTP method decorators *)

(** C3, as stated, fails: the empty path does not start with a slash and
    is stored unchanged, so the stored path has no leading slash. *)
Lemma route_decorator_empty_path_unprefixed :
  ¬ (∀ (p : string) (target : ClassRef) (key : string) (md : Metadata),
       startsWith_slash p = false →
       ∃ r, last (getRouteMetadata (Get (Some p) target key md) target) = Some r
            ∧ leading_slashes (path r) = 1).
Proof.
  intros H.
  destruct (H "" "TestController" "index" empty_metadata eq_refl) as (r & Hr & Hs).
  vm_compute in Hr. injection Hr as <-. vm_compute in Hs. discriminate.
Qed.

(** C3 (amended): given a path that does not start with a slash, or no
    path at all (which defaults to the empty one), each of Get, Post,
    Put, Delete, Patch and All appends to the routes its class reads one
    route with the decorator's verb and the method's name; when the path
    is not empty the stored path is the given path behind exactly one
    leading slash, and when it is empty or absent the stored path is the
    empty string. *)
Theorem route_decorator_adds_one_leading_slash
    (decorator : option string → ClassRef → string → Metadata → Metadata)
    (verb : string) (arg : option string) (target : ClassRef) (key : string)
    (md : Metadata) :
  (decorator, verb) ∈ [ (Get, "get"); (Post, "post"); (Put, "put");
                        (Delete, "delete"); (Patch, "patch"); (All, "all") ] →
  startsWith_slash (default "" arg) = false →
  ∃ r, getRouteMetadata (decorator arg target key md) target
       = getRouteMetadata md target ++ [r]
       ∧ method r = verb
       ∧ propertyKey r = key
       ∧ (default "" arg ≠ "" →
            path r = "/" +:+ default "" arg ∧ leading_slashes (path r) = 1)
       ∧ (default "" arg = "" → path r = "").
Proof.
  intros Hd Hs.
  assert (Hn : default "" arg ≠ "" →
               normalize_path (default "" arg) = "/" +:+ default "" arg).
  { intros Hne. unfold normalize_path. rewrite Hs. by destruct (default "" arg). }
  assert (Hl : leading_slashes ("/" +:+ default "" arg) = 1).
  { change ("/" +:+ default "" arg) with (String "/"%char (default "" arg)); simpl.
    by rewrite (leading_slashes_startsWith _ Hs). }
  assert (He : default "" arg = "" → normalize_path (default "" arg) = "").
  { by intros ->. }
  assert (Hr : ∀ v,
            ∃ r, getRouteMetadata (createRouteDecorator v arg target key md) target
                 = getRouteMetadata md target ++ [r]
                 ∧ method r = v
                 ∧ propertyKey r = key
                 ∧ (default "" arg ≠ "" →
                      path r = "/" +:+ default "" arg
                      ∧ leading_slashes (path r) = 1)
                 ∧ (default "" arg = "" → path r = "")).
  { intros v. eexists. split.
    - unfold createRouteDecorator. apply getRouteMetadata_addRouteMetadata.
    - simpl. split; [done|]. split; [done|]. split; [|exact He].
      intros Hne. split; [by apply Hn|by rewrite (Hn Hne)]. }
  repeat (apply elem_of_cons in Hd as [[= -> ->] | Hd]; [apply Hr|]).
  by apply elem_of_nil in Hd.
Qed.

Lemma route_decorator_adds_one_leading_slash_witness :
  (∃ r, getRouteMetadata (Get (Some "users") "TestController" "getUsers" empty_metadata)
          "TestController"
        = [r]
        ∧ method r = "get" ∧ propertyKey r = "getUsers"
        ∧ path r = "/users" ∧ leading_slashes (path r) = 1)
  ∧ (∃ r, getRouteMetadata (Post None "TestController" "create" empty_metadata)
            "TestController"
          = [r]
          ∧ method r = "post" ∧ propertyKey r = "create" ∧ path r = "").
Proof.
  split.
  - destruct (route_decorator_adds_one_leading_slash Get "get" (Some "users")
                "TestController" "getUsers" empty_metadata)
      as (r & Hr & Hm & Hk & Hp & _).
    + apply list_elem_of_here.
    + reflexivity.
    + exists r. destruct Hp as [Hp Hl]; [discriminate|]. by rewrite Hp in *.
  - destruct (route_decorator_adds_one_leading_slash Post "post" None
                "TestController" "create" empty_metadata)
      as (r & Hr & Hm & Hk & _ & Hp).
    + apply list_elem_of_further, list_elem_of_here.
    + reflexivity.
    + exists r. by rewrite (Hp eq_refl) in *.
Defined.

(** ** The exception hierarchy *)

Lemma extends_HttpException_canned c :
  extends_HttpException c = true ↔ c ∈ canned_classes.
Proof.
  unfold canned_classes. split.
  - destruct c; simpl; intros H; try discriminate;
      apply (bool_decide_unpack _); by vm_compute.
  - intros H. repeat (apply elem_of_cons in H as [-> | H]; [done|]).
    by apply elem_of_nil in H.
Qed.

Lemma canned_classes_NoDup : NoDup canned_classes.
Proof.
  apply (bool_decide_unpack _). by vm_compute.
Qed.

(** C7, as stated, fails in its count: no five classes make up the
    subclasses of [HttpException], which number six. *)
Lemma canned_subclasses_are_not_five :
  ¬ (∃ l : list ObjectClass,
       length l = 5 ∧ ∀ c, extends_HttpException c = true → c ∈ l).
Proof.
  intros (l & Hlen & Hall).
  assert (Hsub : canned_classes ⊆+ l).
  { apply NoDup_submseteq; [apply canned_classes_NoDup|].
    intros c Hc. by apply Hall, extends_HttpException_canned. }
  apply submseteq_length in Hsub. simpl in Hsub. lia.
Qed.

(** C7 (amended): the hierarchy is the base class [HttpException] with
    six canned subclasses, for the statuses 400, 401, 403, 404, 409 and
    500; each of them is an [HttpException] and, constructed without an
    argument, carries its fixed status and its documented default
    message. *)
Theorem canned_exception_defaults (stk : string) :
  (∀ c, extends_HttpException c = true ↔ c ∈ canned_classes)
  ∧ NoDup canned_classes ∧ length canned_classes = 6
  ∧ Forall
      (λ '(construct, cls, status, msg),
         ∃ fields,
           construct None stk = VObject cls fields
           ∧ extends_HttpException cls = true
           ∧ instanceof_HttpException (construct None stk) = true
           ∧ get_property (construct None stk) "status" = Return (VNumber status)
           ∧ get_property (construct None stk) "message" = Return (VString msg))
      [ (BadRequestException, BadRequestExceptionClass, 400%Z, "Bad Request");
        (UnauthorizedException, UnauthorizedExceptionClass, 401%Z, "Unauthorized");
        (ForbiddenException, ForbiddenExceptionClass, 403%Z, "Forbidden");
        (NotFoundException, NotFoundExceptionClass, 404%Z, "Not Found");
        (ConflictException, ConflictExceptionClass, 409%Z, "Conflict");
        (InternalServerErrorException, InternalServerErrorExceptionClass,
         500%Z, "Internal Server Error") ].
Proof.
  split; [apply extends_HttpException_canned|].
  split; [apply canned_classes_NoDup|].
  split; [reflexivity|].
  repeat (apply Forall_cons; split; [ by eexists | ]).
  apply Forall_nil_2.
Qed.

(** ** The global error handler *)

Lemma respond_outcome rs r :
  respond rs r
  = match status rs (sent_status r) with
    | Return _ =>
        ([res_status (sent_status r); res_json (body_object (sent_body r))],
         json rs (body_object (sent_body r)))
    | Throw e => ([res_status (sent_status r)], Throw e)
    end.
Proof.
  unfold respond, bindE, call_status, call_json.
  by destruct (status rs (sent_status r)).
Qed.

Lemma bindE_liftE_Return {A B} (a : A) (k : A → Eff B) :
  bindE (liftE (Return a)) k = k a.
Proof. unfold bindE, liftE. by destruct (k a). Qed.

Lemma errorHandler_respond (isDev : bool) (err : Value) (rs : Response) :
  truthy err = true →
  ∃ code msg stk,
    get_property err "status" = Return code
    ∧ get_property err "message" = Return msg
    ∧ get_property err "stack" = Return stk
    ∧ (instanceof_HttpException err = true →
         errorHandler isDev err rs
         = respond rs {| sent_status := code;
                         sent_body := {| statusCode := code; message := msg;
                                         stack := stack_field isDev stk |} |})
    ∧ (instanceof_HttpException err = false →
         errorHandler isDev err rs
         = respond rs {| sent_status := js_or code (VNumber 500);
                         sent_body :=
                           {| statusCode := js_or code (VNumber 500);
                              message := js_or msg (VString "Internal Server Error");
                              stack := stack_field isDev stk |} |}).
Proof.
  intros Ht.
  destruct err as [| |b|n|s|cls fields| |]; try discriminate Ht.
  all: do 3 eexists; (split; [reflexivity|]); (split; [reflexivity|]);
       (split; [reflexivity|]).
  all: split;
    intros Hi; unfold errorHandler; rewrite Hi; simpl;
    rewrite ?bindE_liftE_Return; unfold respond; simpl;
    destruct isDev; simpl; rewrite ?bindE_liftE_Return;
    unfold bindE, call_status, call_json; simpl;
    by destruct (status rs _).
Qed.

(** C6, as stated, fails: an error that is not an [HttpException] but
    carries a status of its own (as the errors of the body parser do) is
    answered with that status, not with 500. *)
Lemma errorHandler_other_error_not_always_500 :
  ¬ (∀ (isDev : bool) (err : Value) (rs : Response),
       truthy err = true →
       instanceof_HttpException err = false →
       ∃ calls outcome,
         errorHandler isDev err rs = (res_status (VNumber 500) :: calls, outcome)).
Proof.
  intros H.
  destruct (H false
              (VObject ErrorClass
                 [("status", VNumber 400); ("message", VString "Unexpected token")])
              lenient_response eq_refl eq_refl) as (calls & outcome & Hr).
  vm_compute in Hr. discriminate.
Qed.

(** C6 (amended): the handler answers a truthy error with one call
    [res.status(s).json(b)].  For an instance of [HttpException] the
    status and the message are the error's own, which for the canned
    subclasses is the subclass's fixed status; for any other error the
    status is its own [status] property when that is truthy and 500
    otherwise, and the message its own [message] when that is truthy and
    "Internal Server Error" otherwise.  The body carries the stack in
    development mode only.  The body is sent only when [res.status]
    accepts the status: when it throws, the handler throws with it and
    [res.json] is not called. *)
Theorem errorHandler_translation (isDev : bool) (err : Value) (rs : Response) :
  truthy err = true →
  ∃ code msg stk,
    get_property err "status" = Return code
    ∧ get_property err "message" = Return msg
    ∧ get_property err "stack" = Return stk
    ∧ (instanceof_HttpException err = true →
         errorHandler isDev err rs
         = respond rs {| sent_status := code;
                         sent_body := {| statusCode := code; message := msg;
                                         stack := stack_field isDev stk |} |})
    ∧ (instanceof_HttpException err = false →
         errorHandler isDev err rs
         = respond rs {| sent_status := js_or code (VNumber 500);
                         sent_body :=
                           {| statusCode := js_or code (VNumber 500);
                              message := js_or msg (VString "Internal Server Error");
                              stack := stack_field isDev stk |} |})
    ∧ (∀ construct cls n m s,
         (construct, cls, n) ∈
           [ (BadRequestException, BadRequestExceptionClass, 400%Z);
             (UnauthorizedException, UnauthorizedExceptionClass, 401%Z);
             (ForbiddenException, ForbiddenExceptionClass, 403%Z);
             (NotFoundException, NotFoundExceptionClass, 404%Z);
             (ConflictException, ConflictExceptionClass, 409%Z);
             (InternalServerErrorException, InternalServerErrorExceptionClass, 500%Z) ] →
         err = construct m s →
         instanceof_HttpException err = true ∧ code = VNumber n)
    ∧ (∀ r,
         respond rs r
         = match status rs (sent_status r) with
           | Return _ =>
               ([res_status (sent_status r); res_json (body_object (sent_body r))],
                json rs (body_object (sent_body r)))
           | Throw e => ([res_status (sent_status r)], Throw e)
           end).
Proof.
  intros Ht.
  destruct (errorHandler_respond isDev err rs Ht)
    as (code & msg & stk & Hs & Hm & Hk & Hhttp & Hother).
  exists code, msg, stk. split_and!; try done.
  intros construct cls n m s Hin Hc.
  repeat (apply elem_of_cons in Hin as [Hin | Hin];
          [ injection Hin as -> _ ->; subst err;
            vm_compute in Hs; injection Hs as <-; by split | ]).
  by apply elem_of_nil in Hin.
Qed.

Lemma errorHandler_translation_witness :
  errorHandler false (NotFoundException None "trace") strict_response
  = ([ res_status (VNumber 404);
       res_json (VObject PlainObject [ ("statusCode", VNumber 404);
                                       ("message", VString "Not Found") ]) ],
     Return tt)
  ∧ errorHandler false
      (VObject ErrorClass [("status", VNumber 1000); ("message", VString "boom")])
      strict_response
    = ([res_status (VNumber 1000)], Throw (new_RangeError "Invalid status code")).
Proof.
  split.
  - destruct (errorHandler_translation false (NotFoundException None "trace")
                strict_response eq_refl)
      as (code & msg & stk & Hs & Hm & Hk & Hhttp & _ & _ & Hout).
    rewrite (Hhttp eq_refl), Hout.
    vm_compute in Hs, Hm. injection Hs as <-. injection Hm as <-. reflexivity.
  - destruct (errorHandler_translation false
                (VObject ErrorClass
                   [("status", VNumber 1000); ("message", VString "boom")])
                strict_response eq_refl)
      as (code & msg & stk & Hs & Hm & Hk & _ & Hother & _ & Hout).
    rewrite (Hother eq_refl), Hout.
    vm_compute in Hs, Hm. injection Hs as <-. injection Hm as <-. reflexivity.
Defined.

(** ** Request handling *)

(** C10: the request callback never throws.  An error thrown by
    parameter resolution or by the (awaited) controller method goes to
    [next] and nothing else is called; when the method returns
    [undefined] the callback calls nothing itself; when it returns
    another value the callback calls [res.json] with it, once (and hands
    an error thrown by that call to [next]). *)
Theorem createHandler_outcome (controllerInstance : Instance)
    (method : list Value → Eff Value) (key : string)
    (md : Metadata) (rq : Request) (rs : Response) :
  ∃ calls,
    createHandler controllerInstance method key md rq rs = (calls, Return tt)
    ∧ match resolveParameters
              (getParameterMetadata md (constructor controllerInstance) key) rq with
      | Throw error => calls = [next error]
      | Return args =>
          match method args with
          | (own, Throw error) => calls = own ++ [next error]
          | (own, Return VUndefined) => calls = own
          | (own, Return result) =>
              calls = own ++ res_json result ::
                        match json rs result with
                        | Return _ => []
                        | Throw error => [next error]
                        end
          end
      end.
Proof.
  unfold createHandler, try_catch, liftE, bindE, call_json, call_next, retE.
  destruct (resolveParameters _ rq) as [args|e]; [|by eexists].
  destruct (method args) as [own [result|e]]; simpl; [|by eexists].
  destruct result; simpl;
    try (rewrite app_nil_r; by eexists);
    match goal with
    | |- context [json rs ?v] =>
        destruct (json rs v) as [[]|e]; simpl;
        [ by eexists | rewrite <- app_assoc; by eexists ]
    end.
Qed.

(** ** Middleware metadata *)

Lemma same_meta_refl md : same_meta md md.
Proof. by repeat split. Qed.

Lemma same_meta_trans md1 md2 md3 :
  same_meta md1 md2 → same_meta md2 md3 → same_meta md1 md3.
Proof.
  intros (?&?&?&Hc&Hm) (?&?&?&Hc'&Hm').
  repeat split; try congruence; intros; etrans; eauto.
Qed.

Lemma getControllerMetadata_same md md' c :
  CONTROLLER_KEY md = CONTROLLER_KEY md' →
  getControllerMetadata md c = getControllerMetadata md' c.
Proof. unfold getControllerMetadata. by intros ->. Qed.


Lemma getParameterMetadata_same md md' c key :
  PARAMS_KEY md = PARAMS_KEY md' →
  getParameterMetadata md c key = getParameterMetadata md' c key.
Proof. unfold getParameterMetadata. by intros ->. Qed.

Lemma unrelated_elem c c' x :
  unrelated c c' → x ∈ prototype_chain c → x ∉ prototype_chain c'.
Proof. unfold unrelated. rewrite Forall_forall. auto. Qed.

Lemma unrelated_base (n n' : string) :
  n ≠ n' → unrelated (BaseClass n) (BaseClass n').
Proof.
  intros Hne. unfold unrelated. simpl. apply Forall_cons. split; [|done].
  intros [[= ->]|H]%elem_of_cons; [done|by apply elem_of_nil in H].
Qed.

(** A push into the record [getMiddlewareMetadata] returns: the classes
    that read this very record see the new one, every other class reads
    what it read before. *)
Lemma set_middleware_in_place md t (g : MiddlewareMetadata → MiddlewareMetadata) c :
  ∃ b : bool,
    middlewareRecord
      (set_middleware (getMiddlewareMetadata md t).2
         (middleware_holder (getMiddlewareMetadata md t).2 t)
         (g (getMiddlewareMetadata md t).1)) c
    = (if b then Some (g (getMiddlewareMetadata md t).1)
       else middlewareRecord md c)
    ∧ (b = true →
         default {| classMiddlewares := []; methodMiddlewares := ∅ |}
           (middlewareRecord md c)
         = (getMiddlewareMetadata md t).1)
    ∧ (c = t → b = true)
    ∧ (unrelated t c → b = false).
Proof.
  unfold getMiddlewareMetadata, middleware_holder, middlewareRecord.
  destruct (proto_get (λ x, MIDDLEWARE_KEY md !! x) t) as [[o mw]|] eqn:Hget.
  - cbn [fst snd]. rewrite Hget.
    destruct (chain_lookup_Some _ _ _ _ Hget) as [Hin Ho].
    unfold set_middleware, proto_get in *. cbn [MIDDLEWARE_KEY].
    rewrite (chain_lookup_update (λ x, MIDDLEWARE_KEY md !! x) _ o (g mw));
      [ | by eexists | apply lookup_insert_eq
        | intros x Hx; by apply lookup_insert_ne ].
    destruct (chain_lookup (λ x, MIDDLEWARE_KEY md !! x) (prototype_chain c))
      as [[o' mw']|] eqn:Hc.
    + destruct (chain_lookup_Some _ _ _ _ Hc) as [Hin' Ho'].
      destruct (decide (o' = o)) as [->|Hne].
      * exists true. simpl. rewrite decide_True by done.
        split_and!; [done|congruence|done|].
        intros Hun. by destruct (unrelated_elem _ _ _ Hun Hin).
      * exists false. simpl. rewrite decide_False by done.
        split_and!; [done|done| |done].
        intros ->. congruence.
    + exists false. simpl. split_and!; [done|done| |done].
      intros ->. congruence.
  - cbn [fst snd].
    set (fresh := {| classMiddlewares := []; methodMiddlewares := ∅ |}).
    assert (Hown : proto_get
                     (λ x, MIDDLEWARE_KEY (set_middleware md t fresh) !! x) t
                   = Some (t, fresh)).
    { apply proto_get_own. apply lookup_insert_eq. }
    rewrite Hown. unfold set_middleware. cbn [MIDDLEWARE_KEY].
    rewrite (proto_get_create (λ x, MIDDLEWARE_KEY md !! x) _ t (g fresh) c Hget);
      [ | apply lookup_insert_eq
        | intros x Hx; by rewrite !lookup_insert_ne ].
    destruct (proto_get (λ x, MIDDLEWARE_KEY md !! x) c) as [[o' mw']|] eqn:Hc.
    + exists false. simpl. split_and!; [done|done| |done].
      intros ->. congruence.
    + destruct (decide (t ∈ prototype_chain c)) as [Hin|Hin].
      * exists true. simpl. split_and!; [done|done|done|].
        intros Hun. exfalso.
        by apply (unrelated_elem _ _ _ Hun (prototype_chain_self t)).
      * exists false. simpl. split_and!; [done|done| |done].
        intros ->. exfalso. apply Hin, prototype_chain_self.
Qed.

Lemma getMiddlewareMetadata_reads md c :
  classMiddlewares (getMiddlewareMetadata md c).1 = classMiddlewaresOf md c
  ∧ (∀ key, default [] (methodMiddlewares (getMiddlewareMetadata md c).1 !! key)
            = methodMiddlewaresOf md c key)
  ∧ middlewareRecord (getMiddlewareMetadata md c).2 c
    = Some (getMiddlewareMetadata md c).1
  ∧ same_meta md (getMiddlewareMetadata md c).2.
Proof.
  unfold getMiddlewareMetadata, classMiddlewaresOf, methodMiddlewaresOf,
    middlewareRecord.
  destruct (proto_get (λ x, MIDDLEWARE_KEY md !! x) c) as [[o mw]|] eqn:Hmw;
    cbn [fst snd].
  - rewrite Hmw. repeat split; auto.
  - set (fresh := {| classMiddlewares := []; methodMiddlewares := ∅ |}).
    assert (Hget : ∀ c',
              snd <$> proto_get
                        (λ x, MIDDLEWARE_KEY (set_middleware md c fresh) !! x) c'
              = match snd <$> proto_get (λ x, MIDDLEWARE_KEY md !! x) c' with
                | Some mw => Some mw
                | None => if decide (c ∈ prototype_chain c') then Some fresh
                          else None
                end).
    { intros c'. unfold set_middleware. cbn [MIDDLEWARE_KEY].
      rewrite (proto_get_create (λ x, MIDDLEWARE_KEY md !! x) _ c fresh c' Hmw);
        [ | apply lookup_insert_eq | intros x Hx; by apply lookup_insert_ne ].
      destruct (proto_get (λ x, MIDDLEWARE_KEY md !! x) c') as [[??]|]; [done|].
      by case_decide. }
    split_and!; [done|done| |].
    + rewrite Hget, Hmw. simpl.
      rewrite decide_True; [done|apply prototype_chain_self].
    + unfold same_meta, classMiddlewaresOf, methodMiddlewaresOf, middlewareRecord.
      split_and!; [done|done|done| |].
      * intros c'. rewrite Hget.
        destruct (snd <$> proto_get (λ x, MIDDLEWARE_KEY md !! x) c'); [done|].
        by case_decide.
      * intros c' key. rewrite Hget.
        destruct (snd <$> proto_get (λ x, MIDDLEWARE_KEY md !! x) c'); [done|].
        by case_decide.
Qed.

Lemma getMethodMiddlewares_reads md c key :
  (getMethodMiddlewares md c key).1
  = classMiddlewaresOf md c ++ methodMiddlewaresOf md c key
  ∧ same_meta md (getMethodMiddlewares md c key).2.
Proof.
  unfold getMethodMiddlewares.
  destruct (getMiddlewareMetadata_reads md c) as (Hc & Hm & _ & Hs).
  destruct (getMiddlewareMetadata md c) as [mw md1]; simpl in *.
  by rewrite Hc, Hm.
Qed.

(** A class-level push is seen, behind what was there, by the classes
    that read the record pushed into, among them the target itself and
    none of the classes unrelated to it. *)
Lemma addClassMiddleware_view md t f c :
  ∃ b : bool,
    classMiddlewaresOf (addClassMiddleware md t f) c
    = classMiddlewaresOf md c ++ (if b then [f] else [])
    ∧ (∀ key, methodMiddlewaresOf (addClassMiddleware md t f) c key
              = methodMiddlewaresOf md c key)
    ∧ (c = t → b = true)
    ∧ (unrelated t c → b = false).
Proof.
  destruct (set_middleware_in_place md t
              (λ mw, {| classMiddlewares := classMiddlewares mw ++ [f];
                        methodMiddlewares := methodMiddlewares mw |}) c)
    as (b & Hrec & Hsame & Hself & Hun).
  exists b. unfold addClassMiddleware.
  destruct (getMiddlewareMetadata md t) as [mw md1]; cbn [fst snd] in *.
  unfold classMiddlewaresOf, methodMiddlewaresOf. rewrite Hrec.
  destruct b; [specialize (Hsame eq_refl)|]; (split; [|split; [|done]]).
  - destruct (middlewareRecord md c); simpl in *; by subst.
  - intros key. destruct (middlewareRecord md c); simpl in *; by subst.
  - by rewrite app_nil_r.
  - done.
Qed.

Lemma addMethodMiddleware_view md t k f c :
  ∃ b : bool,
    classMiddlewaresOf (addMethodMiddleware md t k f) c = classMiddlewaresOf md c
    ∧ (∀ key, methodMiddlewaresOf (addMethodMiddleware md t k f) c key
              = methodMiddlewaresOf md c key
                ++ (if b && bool_decide (k = key) then [f] else []))
    ∧ (c = t → b = true)
    ∧ (unrelated t c → b = false).
Proof.
  destruct (set_middleware_in_place md t
              (λ mw,
                 let withKey :=
                   match methodMiddlewares mw !! k with
                   | Some _ => methodMiddlewares mw
                   | None => <[k := []]> (methodMiddlewares mw)
                   end in
                 {| classMiddlewares := classMiddlewares mw;
                    methodMiddlewares :=
                      <[k := default [] (withKey !! k) ++ [f]]> withKey |}) c)
    as (b & Hrec & Hsame & Hself & Hun).
  exists b. unfold addMethodMiddleware.
  destruct (getMiddlewareMetadata md t) as [mw md1]; cbn [fst snd] in *.
  unfold classMiddlewaresOf, methodMiddlewaresOf. rewrite Hrec.
  destruct b; [specialize (Hsame eq_refl)|]; (split; [|split; [|done]]).
  - destruct (middlewareRecord md c); simpl in *; by subst.
  - intros key.
    assert (Hold : default [] (middlewareRecord md c
                               ≫= λ mw0, methodMiddlewares mw0 !! key)
                   = default [] (methodMiddlewares mw !! key)).
    { destruct (middlewareRecord md c); simpl in *; by subst. }
    rewrite Hold. simpl.
    destruct (decide (k = key)) as [<-|Hk].
    + rewrite bool_decide_eq_true_2 by done. rewrite lookup_insert_eq. simpl.
      destruct (methodMiddlewares mw !! k) eqn:Hl; simpl; [by rewrite Hl|].
      by rewrite lookup_insert_eq.
    + rewrite bool_decide_eq_false_2 by done. rewrite app_nil_r.
      rewrite lookup_insert_ne by done.
      destruct (methodMiddlewares mw !! k); [done|].
      by rewrite lookup_insert_ne.
  - done.
  - intros key. by rewrite app_nil_r.
Qed.


(** ** Controller registration *)

Lemma same_world_refl w : same_world w w.
Proof. split; [apply same_meta_refl|done]. Qed.

Lemma same_world_trans w1 w2 w3 :
  same_world w1 w2 → same_world w2 w3 → same_world w1 w3.
Proof.
  intros [Hm Hi] [Hm' Hi']. split; [by eapply same_meta_trans|].
  intros c. by rewrite Hi.
Qed.

Lemma route_entry_same w w' c pfx r :
  same_world w w' → route_entry w c pfx r = route_entry w' c pfx r.
Proof.
  intros [(_&_&_&Hc&Hm) Hi]. unfold route_entry. by rewrite Hc, Hm, Hi.
Qed.



Lemma Container_get_reads ct c :
  (Container_get ct c).1 = instanceOf ct c
  ∧ ∀ c', instanceOf (Container_get ct c).2 c' = instanceOf ct c'.
Proof.
  unfold Container_get, instanceOf.
  destruct (ct !! c) as [i|] eqn:Hi; simpl; [done|].
  split; [done|]. intros c'.
  destruct (decide (c = c')) as [<-|Hne].
  - by rewrite lookup_insert_eq, Hi.
  - by rewrite lookup_insert_ne.
Qed.

Lemma registerRoute_reads c pfx w r :
  app (registerRoute c (instanceOf (container w) c) pfx w r)
  = app w ++ [route_entry w c pfx r]
  ∧ same_world w (registerRoute c (instanceOf (container w) c) pfx w r).
Proof.
  unfold registerRoute, route_entry.
  destruct (getMethodMiddlewares_reads (metadata w) c (propertyKey r)) as [Hm Hs].
  destruct (getMethodMiddlewares (metadata w) c (propertyKey r)) as [mws md1].
  simpl in *. subst mws. split; [|by split].
  by rewrite fmap_app, <- app_assoc.
Qed.

Lemma registerRoutes_reads c pfx routes w :
  app (foldl (registerRoute c (instanceOf (container w) c) pfx) w routes)
  = app w ++ (route_entry w c pfx <$> routes)
  ∧ same_world w (foldl (registerRoute c (instanceOf (container w) c) pfx) w routes).
Proof.
  revert w. induction routes as [|r routes IH]; intros w; simpl.
  - rewrite app_nil_r. split; [done|apply same_world_refl].
  - destruct (registerRoute_reads c pfx w r) as [Ha Hs].
    set (w1 := registerRoute c (instanceOf (container w) c) pfx w r) in *.
    assert (Hi : instanceOf (container w) c = instanceOf (container w1) c)
      by apply Hs.
    rewrite Hi. destruct (IH w1) as [Ha' Hs'].
    rewrite Ha', Ha, <- app_assoc. split.
    + simpl. do 2 f_equal. apply list_fmap_ext. intros _ r' _.
      symmetry. by apply route_entry_same.
    + by eapply same_world_trans.
Qed.

Lemma registerOwnRoutes_reads w c pfx :
  app (registerOwnRoutes w c pfx)
  = app w ++ (route_entry w c pfx <$> getRouteMetadata (metadata w) c)
  ∧ same_world w (registerOwnRoutes w c pfx).
Proof.
  unfold registerOwnRoutes.
  destruct (getRouteMetadata (metadata w) c) as [|r routes] eqn:Hr.
  - rewrite app_nil_r. split; [done|apply same_world_refl].
  - destruct (Container_get_reads (container w) c) as [Hi Hc].
    destruct (Container_get (container w) c) as [i c1]; simpl in Hi, Hc.
    set (w0 := {| metadata := metadata w; app := app w; container := c1 |}).
    assert (Hs0 : same_world w w0) by (split; [apply same_meta_refl|done]).
    assert (Hi0 : i = instanceOf (container w0) c) by (by rewrite Hi, <- Hc).
    rewrite Hi0.
    destruct (registerRoutes_reads c pfx (r :: routes) w0) as [Ha Hs].
    rewrite Ha. split; [|by eapply same_world_trans].
    simpl. do 2 f_equal; [symmetry; by apply route_entry_same|].
    apply list_fmap_ext. intros _ r' _. symmetry. by apply route_entry_same.
Qed.

Lemma registerController_unfold fuel w c isDev pfx :
  registerController (S fuel) w c isDev pfx
  = match getControllerMetadata (metadata w) c with
    | None => Some w
    | Some m =>
        foldl (λ ow child,
                 ow ≫= λ w', registerController fuel w' child isDev (pfx +:+ prefix m))
              (Some (registerOwnRoutes w c (pfx +:+ prefix m)))
              (controllers m)
    end.
Proof. done. Qed.




(** C9, as stated, fails: a class that was not decorated itself but
    extends a decorated controller reads the controller metadata and the
    routes of that controller through its prototype chain, so it is
    instantiated and the inherited routes are registered for it. *)
Lemma undecorated_subclass_is_registered :
  ¬ (∀ (md : Metadata) (c : ClassRef) (w' : World),
       Decorated md →
       CONTROLLER_KEY md !! c = None →
       registerController 1 {| metadata := md; app := []; container := ∅ |}
         c true ""
       = Some w' →
       app w' = [] ∧ container w' = ∅).
Proof.
  intros H.
  destruct (registerController 1
              {| metadata := users_metadata; app := []; container := ∅ |}
              AdminController true "") as [w'|] eqn:Hreg;
    [|by vm_compute in Hreg].
  destruct (H users_metadata AdminController w') as [Happ _].
  - unfold users_metadata, Get. repeat constructor.
  - reflexivity.
  - exact Hreg.
  - vm_compute in Hreg. injection Hreg as <-. discriminate Happ.
Qed.

(** C9 (amended): [registerController] reads no controller metadata for
    a class exactly when neither the class nor any class it extends
    carries controller metadata of its own; it then returns at once: no
    route is added to the application, the container is not asked for an
    instance, and no metadata is written. *)
Theorem registerController_undecorated (fuel : nat) (w : World) (c : ClassRef)
    (isDev : bool) (pfx : string) :
  (getControllerMetadata (metadata w) c = None
   ↔ ∀ x, x ∈ prototype_chain c → CONTROLLER_KEY (metadata w) !! x = None)
  ∧ (getControllerMetadata (metadata w) c = None →
     ∃ w', registerController (S fuel) w c isDev pfx = Some w'
           ∧ app w' = app w
           ∧ container w' = container w
           ∧ metadata w' = metadata w).
Proof.
  split.
  - unfold getControllerMetadata, proto_get. split.
    + intros Hget x Hx.
      destruct (chain_lookup _ (prototype_chain c)) as [[??]|] eqn:Hl; [done|].
      by apply (chain_lookup_None _ _ x Hl).
    + intros Hnone. by rewrite chain_lookup_empty.
  - intros Hget. exists w. simpl. by rewrite Hget.
Qed.

Lemma registerController_undecorated_witness :
  ∃ w', registerController 1
          {| metadata := users_metadata; app := []; container := ∅ |}
          "Plain" true ""
        = Some w'
        ∧ app w' = []
        ∧ container w' = ∅
        ∧ metadata w' = users_metadata.
Proof.
  destruct (registerController_undecorated 0
              {| metadata := users_metadata; app := []; container := ∅ |}
              "Plain" true "") as [Hiff Hret].
  apply Hret, Hiff.
  intros x Hx. apply list_elem_of_singleton in Hx as ->. reflexivity.
Defined.



(** ** Middleware order *)



(** ** Paths of nested controllers *)



















(** ** Resource routes *)

Lemma foldl_app_bind {A B} (f : A → list B) (l : list A) (acc : list B) :
  foldl (λ acc x, acc ++ f x) acc l = acc ++ (l ≫= f).
Proof.
  revert acc. induction l as [|x l IH]; intros acc.
  - simpl. by rewrite app_nil_r.
  - rewrite bind_cons. simpl. by rewrite IH, <- app_assoc.
Qed.

Lemma split_nonempty sep s : split sep s ≠ [].
Proof.
  destruct s as [|c s]; simpl; [done|].
  destruct (decide (c = sep)); [done|]. by destruct (split sep s).
Qed.

Lemma slice0_all {A} (l : list A) : slice0 (Z.of_nat (length l)) l = l.
Proof.
  unfold slice0.
  destruct (Z.ltb_spec (Z.of_nat (length l)) 0) as [Hlt|_]; [lia|].
  rewrite Z.min_id, Nat2Z.id. apply firstn_all.
Qed.

Lemma slice0_but_last {A} (l : list A) : slice0 (-1) l = removelast l.
Proof.
  unfold slice0. simpl.
  rewrite removelast_firstn_len. f_equal. lia.
Qed.

Lemma getRouteMetadata_setControllerMetadata md c m c' :
  getRouteMetadata (setControllerMetadata md c m) c' = getRouteMetadata md c'.
Proof. done. Qed.

Lemma registerActions_routes target members segments actions md :
  getRouteMetadata (foldl (registerAction target members segments) md actions)
    target
  = getRouteMetadata md target
    ++ (action_route segments
          <$> List.filter (λ a, members (ra_name a)) actions).
Proof.
  revert md. induction actions as [|a actions IH]; intros md; simpl.
  - by rewrite app_nil_r.
  - rewrite IH. unfold registerAction.
    destruct (members (ra_name a)); simpl; [|done].
    rewrite getRouteMetadata_addRouteMetadata, <- app_assoc. simpl.
    do 3 f_equal. unfold action_route. do 3 f_equal.
    destruct (ra_placeholder a); [apply slice0_all|apply slice0_but_last].
Qed.

Lemma segments_last {A} (f : A → A) (l : list A) (x : A) :
  last l = Some x →
  last (l ≫= λ y, [y; f y]) = Some (f x)
  ∧ last (removelast (l ≫= λ y, [y; f y])) = Some x.
Proof.
  intros Hl. apply last_Some in Hl as [l' ->].
  rewrite bind_app. simpl.
  replace ((l' ≫= λ y, [y; f y]) ++ [x; f x])
    with (((l' ≫= λ y, [y; f y]) ++ [x]) ++ [f x]) by (by rewrite <- app_assoc).
  by rewrite removelast_last, !last_snoc.
Qed.

(** Splitting cuts at every separator and nowhere else: joining the
    pieces with the separator gives the string back, and no piece holds
    the separator. *)
Lemma join_split (sep : ascii) (s : string) :
  join (String sep "") (split sep s) = s.
Proof.
  induction s as [|c s IH]; [done|]. simpl.
  destruct (decide (c = sep)) as [->|Hne].
  - pose proof (split_nonempty sep s) as Hs.
    destruct (split sep s) as [|w ws]; [done|].
    change (join (String sep "") ("" :: w :: ws))
      with ("" +:+ String sep "" +:+ join (String sep "") (w :: ws)).
    by rewrite IH.
  - pose proof (split_nonempty sep s) as Hs.
    destruct (split sep s) as [|w ws]; [done|].
    destruct ws as [|w' ws]; [simpl in *; by subst|].
    change (join (String sep "") (String c w :: w' :: ws))
      with (String c w +:+ String sep "" +:+ join (String sep "") (w' :: ws)).
    change (join (String sep "") (w :: w' :: ws))
      with (w +:+ String sep "" +:+ join (String sep "") (w' :: ws)) in IH.
    by rewrite append_String, IH.
Qed.

Lemma split_pieces (sep : ascii) (s : string) :
  Forall (λ piece, includes (String sep "") piece = false) (split sep s).
Proof.
  induction s as [|c s IH]; [by repeat constructor|]. simpl.
  destruct (decide (c = sep)) as [->|Hne]; [by constructor|].
  pose proof (split_nonempty sep s) as Hs.
  destruct (split sep s) as [|w ws]; [done|].
  apply Forall_cons in IH as [Hw Hws]. constructor; [|done].
  simpl. rewrite Hw. rewrite bool_decide_eq_false_2 by done. done.
Qed.

(** C4: the literals of a resource are the pieces of the given name
    between its dots, and the segments are the literals, each followed
    by its placeholder: a colon and, in this order of preference, the
    truthy entry the [parameters] option holds for the literal, the
    member of that name every object inherits, or the singular of the
    literal with [Id] appended (always the last for a name given as a
    string).  For each of the six conventional method names present on
    the class, in the order index, show, create, update, patch, delete,
    one route is appended with the verb get, get, post, put, patch,
    delete respectively; the path of index and create joins the segments
    up to the last literal, that of show, update, patch and delete joins
    all segments and so ends with the placeholder of the last literal. *)
Theorem Resource_routes (singular : string → string)
    (Object_prototype : string → option string)
    (pathOrOptions : string + ResourceOptions) (target : ClassRef)
    (members : string → bool) (md : Metadata) :
  let name := match pathOrOptions with
              | inl s => s
              | inr o => ro_path o
              end in
  let named l := singular l +:+ "Id" in
  let placeholder l :=
    ":" +:+ match pathOrOptions with
            | inl _ => named l
            | inr o =>
                match ro_parameters o with
                | None => named l
                | Some ps =>
                    match ps !! l with
                    | Some p => if truthy_string p then p else named l
                    | None => default (named l) (Object_prototype l)
                    end
                end
            end in
  ∃ literals segments,
    join "." literals = name
    ∧ Forall (λ l, includes "." l = false) literals
    ∧ segments = literals ≫= (λ l, [l; placeholder l])
    ∧ createSegments singular Object_prototype (resourceOptionsOf pathOrOptions)
      = segments
    ∧ (λ a, (ra_name a, ra_method a, ra_placeholder a)) <$> resourceActions
      = [ ("index", "get", false); ("show", "get", true);
          ("create", "post", false); ("update", "put", true);
          ("patch", "patch", true); ("delete", "delete", true) ]
    ∧ getRouteMetadata
        (Resource singular Object_prototype pathOrOptions target members md) target
      = getRouteMetadata md target
        ++ ((λ a, {| method := ra_method a;
                     path := "/" +:+ join "/" (if ra_placeholder a then segments
                                               else removelast segments);
                     propertyKey := ra_name a |})
              <$> List.filter (λ a, members (ra_name a)) resourceActions)
    ∧ ∃ collection,
        last literals = Some collection
        ∧ last (removelast segments) = Some collection
        ∧ last segments = Some (placeholder collection).
Proof.
  intros name named placeholder.
  set (options := resourceOptionsOf pathOrOptions).
  assert (Hname : ro_path options = name) by (by destruct pathOrOptions).
  assert (Hph : ∀ l, ":" +:+ placeholder_name singular Object_prototype options l
                     = placeholder l).
  { intros l. unfold placeholder, placeholder_name, options.
    by destruct pathOrOptions. }
  exists (split "."%char name), (createSegments singular Object_prototype options).
  assert (Hseg : createSegments singular Object_prototype options
                 = split "."%char name ≫= (λ l, [l; placeholder l])).
  { unfold createSegments. rewrite foldl_app_bind, Hname. simpl.
    apply list_bind_ext; [|done]. intros l. by rewrite Hph. }
  split; [apply join_split|]. split; [apply split_pieces|].
  split; [exact Hseg|]. split; [done|]. split; [done|]. split.
  - unfold Resource. fold options.
    by rewrite registerActions_routes, getRouteMetadata_setControllerMetadata.
  - destruct (last (split "."%char name)) as [collection|] eqn:Hlast.
    + exists collection. split; [done|]. rewrite Hseg.
      destruct (segments_last placeholder _ collection Hlast) as [H1 H2].
      by split.
    + apply last_None in Hlast. by apply split_nonempty in Hlast.
Qed.

Lemma Resource_routes_witness :
  getRouteMetadata
    (Resource drop_final_s Object_members (inl "blogs.comments.likes")
       "LikesResource" (λ n, bool_decide (n ∈ ["index"; "show"; "delete"]))
       empty_metadata)
    "LikesResource"
  = [ {| method := "get"; path := "/blogs/:blogId/comments/:commentId/likes";
         propertyKey := "index" |};
      {| method := "get";
         path := "/blogs/:blogId/comments/:commentId/likes/:likeId";
         propertyKey := "show" |};
      {| method := "delete";
         path := "/blogs/:blogId/comments/:commentId/likes/:likeId";
         propertyKey := "delete" |} ]
  ∧ getRouteMetadata
      (Resource drop_final_s Object_members
         (inr {| ro_path := "blogs.toString";
                 ro_parameters := Some {[ "blogs" := "slug" ]};
                 ro_controllers := None; ro_middlewares := None |})
         "BlogsResource" (λ n, bool_decide (n ∈ ["index"; "show"]))
         empty_metadata)
      "BlogsResource"
    = [ {| method := "get"; path := "/blogs/:slug/toString";
           propertyKey := "index" |};
        {| method := "get";
           path := "/blogs/:slug/toString/:function toString() { [native code] }";
           propertyKey := "show" |} ].
Proof.
  split.
  - destruct (Resource_routes drop_final_s Object_members
                (inl "blogs.comments.likes") "LikesResource"
                (λ n, bool_decide (n ∈ ["index"; "show"; "delete"]))
                empty_metadata)
      as (literals & segments & _ & _ & _ & Hseg & _ & Hroutes & _).
    rewrite Hroutes, <- Hseg. reflexivity.
  - destruct (Resource_routes drop_final_s Object_members
                (inr {| ro_path := "blogs.toString";
                        ro_parameters := Some {[ "blogs" := "slug" ]};
                        ro_controllers := None; ro_middlewares := None |})
                "BlogsResource" (λ n, bool_decide (n ∈ ["index"; "show"]))
                empty_metadata)
      as (literals & segments & _ & _ & _ & Hseg & _ & Hroutes & _).
    rewrite Hroutes, <- Hseg. reflexivity.
Defined.

(** ** Parameter resolution *)

Lemma sort_insert_Permutation {A} (cmp : A → A → Z) x l :
  sort_insert cmp x l ≡ₚ x :: l.
Proof.
  induction l as [|y l IH]; simpl; [done|].
  destruct (cmp x y <=? 0)%Z; [done|].
  rewrite IH. apply Permutation_swap.
Qed.

Lemma sort_Permutation {A} (cmp : A → A → Z) l : sort cmp l ≡ₚ l.
Proof.
  induction l as [|x l IH]; simpl; [done|].
  by rewrite sort_insert_Permutation, IH.
Qed.

Lemma sort_insert_sorted x l :
  StronglySorted le_index l →
  StronglySorted le_index (sort_insert compareIndex x l).
Proof.
  induction 1 as [|y l Hl IH Hy]; simpl.
  - repeat constructor.
  - unfold compareIndex at 1.
    destruct (Z.leb_spec (Z.of_nat (index x) - Z.of_nat (index y)) 0) as [Hle|Hgt].
    + constructor; [by constructor|].
      constructor; [unfold le_index; lia|].
      eapply Forall_impl; [exact Hy|]. unfold le_index. intros z Hz. lia.
    + constructor; [done|].
      rewrite sort_insert_Permutation. constructor; [unfold le_index; lia|done].
Qed.

Lemma sort_sorted l : StronglySorted le_index (sort compareIndex l).
Proof.
  induction l as [|x l IH]; simpl; [constructor|]. by apply sort_insert_sorted.
Qed.

Lemma NoDup_fmap_elem_inj {A B} (f : A → B) (l : list A) x y :
  NoDup (f <$> l) → x ∈ l → y ∈ l → f x = f y → x = y.
Proof.
  induction l as [|z l IH]; intros Hnd Hx Hy Hf; [by apply elem_of_nil in Hx|].
  rewrite fmap_cons in Hnd. apply NoDup_cons in Hnd as [Hz Hnd].
  apply elem_of_cons in Hx as [->|Hx]; apply elem_of_cons in Hy as [->|Hy]; auto.
  - exfalso. apply Hz. rewrite Hf. apply list_elem_of_fmap. by exists y.
  - exfalso. apply Hz. rewrite <- Hf. apply list_elem_of_fmap. by exists x.
Qed.

Lemma sort_respects_Permutation params params' :
  NoDup (index <$> params) → params ≡ₚ params' →
  sort compareIndex params = sort compareIndex params'.
Proof.
  intros Hnd Hp.
  apply (StronglySorted_unique_strong le_index); try apply sort_sorted.
  - intros x1 x2 H1 H2 Hle Hge. rewrite sort_Permutation in H1, H2.
    rewrite <- Hp in H2. apply (NoDup_fmap_elem_inj index params); try done.
    unfold le_index in *. lia.
  - by rewrite !sort_Permutation.
Qed.

Lemma sorted_strictly l :
  StronglySorted le_index l → NoDup (index <$> l) → StronglySorted lt_index l.
Proof.
  induction 1 as [|x l Hl IH Hx]; intros Hnd; [constructor|].
  rewrite fmap_cons in Hnd. apply NoDup_cons in Hnd as [Hnx Hnd].
  constructor; [by apply IH|].
  rewrite Forall_forall in Hx. apply Forall_forall. intros y Hy.
  assert (Hle : le_index x y) by (by apply Hx).
  assert (Hne : index x ≠ index y).
  { intros Heq. apply Hnx. rewrite Heq. apply list_elem_of_fmap. by exists y. }
  unfold le_index, lt_index in *. lia.
Qed.

Lemma seq_sorted (k n : nat) : StronglySorted le (seq k n).
Proof.
  revert k. induction n as [|n IH]; intros k; simpl; [constructor|].
  constructor; [apply IH|]. apply Forall_forall. intros j Hj.
  apply elem_of_seq in Hj. lia.
Qed.

Lemma sorted_indices_contiguous params :
  index <$> params ≡ₚ seq 0 (length params) →
  index <$> sort compareIndex params = seq 0 (length params).
Proof.
  intros Hp.
  apply (StronglySorted_unique le).
  - apply (StronglySorted_fmap _ le_index le); [|apply sort_sorted]. done.
  - apply seq_sorted.
  - by rewrite sort_Permutation.
Qed.

Lemma mapC_lookup {A B} (f : A → Completion B) (l : list A) (ys : list B) :
  mapC f l = Return ys →
  ∀ i x, l !! i = Some x → ∃ y, ys !! i = Some y ∧ f x = Return y.
Proof.
  revert ys. induction l as [|a l IH]; intros ys Hm i x Hi; [done|].
  simpl in Hm. destruct (f a) as [b|e] eqn:Hfa; [|discriminate Hm].
  simpl in Hm. destruct (mapC f l) as [bs|e] eqn:Hml; [|discriminate Hm].
  injection Hm as <-. destruct i as [|i]; simpl in *.
  - injection Hi as <-. by exists b.
  - by apply (IH bs).
Qed.

(** C1, as stated, fails: two entries with the same index (two
    decorators on one parameter) keep their input order in the stable
    sort, so permuting the input permutes the result. *)
Lemma resolveParameters_depends_on_order :
  ¬ (∀ params params' rq,
       params ≡ₚ params' →
       resolveParameters params rq = resolveParameters params' rq).
Proof.
  intros H.
  specialize (H [ {| type := param; name := Some "id"; index := 0 |};
                  {| type := query; name := Some "id"; index := 0 |} ]
                [ {| type := query; name := Some "id"; index := 0 |};
                  {| type := param; name := Some "id"; index := 0 |} ]
                sample_request (Permutation_swap _ _ _)).
  vm_compute in H. discriminate H.
Qed.

(** C1 (amended): for a metadata list with pairwise distinct indices,
    [resolveParameters] resolves the entries in strictly increasing
    order of index and returns the same array for every permutation of
    the list; when the indices are exactly 0 .. n-1 (each declared
    parameter decorated once), the value for the parameter with index
    [i] is at position [i]. *)
Theorem resolveParameters_by_index (params params' : list ParameterMetadata)
    (rq : Request) :
  NoDup (index <$> params) →
  params ≡ₚ params' →
  let sortedParams := sort compareIndex params in
  sortedParams ≡ₚ params
  ∧ StronglySorted lt_index sortedParams
  ∧ resolveParameters params rq = mapC (resolveParameter rq) sortedParams
  ∧ resolveParameters params' rq = resolveParameters params rq
  ∧ (index <$> params ≡ₚ seq 0 (length params) →
     ∀ p, p ∈ params →
       sortedParams !! index p = Some p
       ∧ ∀ args, resolveParameters params rq = Return args →
           ∃ v, args !! index p = Some v ∧ resolveParameter rq p = Return v).
Proof.
  intros Hnd Hperm sortedParams.
  split; [apply sort_Permutation|]. split.
  { apply sorted_strictly; [apply sort_sorted|].
    unfold sortedParams. by rewrite sort_Permutation. }
  split; [done|]. split.
  { unfold resolveParameters. by rewrite (sort_respects_Permutation _ _ Hnd Hperm). }
  intros Hcont p Hp.
  assert (Hat : sortedParams !! index p = Some p).
  { assert (Hin : p ∈ sortedParams)
      by (unfold sortedParams; by rewrite sort_Permutation).
    apply list_elem_of_lookup in Hin as [i Hi].
    assert (Hidx : (index <$> sortedParams) !! i = Some (index p))
      by (by rewrite list_lookup_fmap, Hi).
    unfold sortedParams in Hidx.
    rewrite (sorted_indices_contiguous _ Hcont) in Hidx.
    apply lookup_seq in Hidx as [Heq _]. simpl in Heq. by rewrite Heq. }
  split; [exact Hat|].
  intros args Hargs. by apply (mapC_lookup _ _ _ Hargs).
Qed.

Lemma resolveParameters_by_index_witness :
  resolveParameters (reverse getPost_params) sample_request
  = resolveParameters getPost_params sample_request
  ∧ resolveParameters getPost_params sample_request
    = Return [VString "param:userId"; VString "param:postId"].
Proof.
  destruct (resolveParameters_by_index getPost_params (reverse getPost_params)
              sample_request) as (_ & _ & _ & Hinv & _).
  - apply (bool_decide_unpack _). by vm_compute.
  - apply Permutation_swap.
  - split; [exact Hinv|reflexivity].
Defined.

(** * Further properties of the code *)

(** ** Metadata storage *)

Lemma getRouteMetadata_subclass md n t :
  ROUTES_KEY md !! SubClass n t = None →
  getRouteMetadata md (SubClass n t) = getRouteMetadata md t.
Proof.
  intros Hn. unfold getRouteMetadata.
  by rewrite (proto_get_parent (λ c, ROUTES_KEY md !! c) n t Hn).
Qed.

(** A push writes on a prototype of the target's chain only. *)
Lemma ROUTES_KEY_addRouteMetadata md t r c :
  c ∉ prototype_chain t →
  ROUTES_KEY (addRouteMetadata md t r) !! c = ROUTES_KEY md !! c.
Proof.
  intros Hc. unfold addRouteMetadata.
  destruct (proto_get (λ c, ROUTES_KEY md !! c) t) as [[o rs]|] eqn:Hget; simpl.
  - apply chain_lookup_Some in Hget as [Ho _].
    apply lookup_insert_ne. by intros ->.
  - apply lookup_insert_ne. intros ->. apply Hc, prototype_chain_self.
Qed.

Lemma getParameterMetadata_addParameterMetadata md t k p :
  getParameterMetadata (addParameterMetadata md t k p) t k
  = getParameterMetadata md t k ++ [p].
Proof.
  unfold getParameterMetadata, addParameterMetadata.
  destruct (proto_get (λ c, PARAMS_KEY md !! (c, k)) t) as [[o ps]|] eqn:Hget;
    simpl.
  - destruct (chain_lookup_Some _ _ _ _ Hget) as [_ Ho].
    unfold proto_get in *.
    rewrite (chain_lookup_update (λ c, PARAMS_KEY md !! (c, k)) _ o (ps ++ [p])).
    + rewrite Hget. simpl. by rewrite decide_True.
    + by eexists.
    + apply lookup_insert_eq.
    + intros c Hc. apply lookup_insert_ne. congruence.
  - rewrite (proto_get_create (λ c, PARAMS_KEY md !! (c, k)) _ t [p]).
    + rewrite Hget. rewrite decide_True; [done|apply prototype_chain_self].
    + done.
    + apply lookup_insert_eq.
    + intros c Hc. apply lookup_insert_ne. congruence.
Qed.

Lemma PARAMS_KEY_addParameterMetadata md t k p c k' :
  k ≠ k' ∨ c ∉ prototype_chain t →
  PARAMS_KEY (addParameterMetadata md t k p) !! (c, k') = PARAMS_KEY md !! (c, k').
Proof.
  intros Hc. unfold addParameterMetadata.
  destruct (proto_get (λ c, PARAMS_KEY md !! (c, k)) t) as [[o ps]|] eqn:Hget;
    simpl.
  - apply chain_lookup_Some in Hget as [Ho _].
    apply lookup_insert_ne. intros [= -> ->]. by destruct Hc.
  - apply lookup_insert_ne. intros [= -> ->].
    destruct Hc as [?|Hc]; [done|]. apply Hc, prototype_chain_self.
Qed.

(** The entries of a method with another name, and those any method of
    an unrelated class, are not touched by a push. *)
Lemma getParameterMetadata_addParameterMetadata_other md t k p c k' :
  k ≠ k' ∨ unrelated t c →
  getParameterMetadata (addParameterMetadata md t k p) c k'
  = getParameterMetadata md c k'.
Proof.
  intros Hc. unfold getParameterMetadata, proto_get. do 2 f_equal.
  apply chain_lookup_ext. intros x Hx. apply PARAMS_KEY_addParameterMetadata.
  destruct Hc as [?|Hun]; [by left|right].
  intros Hin. by apply (unrelated_elem _ _ _ Hun Hin).
Qed.

Lemma getParameterMetadata_subclass md n t k :
  PARAMS_KEY md !! (SubClass n t, k) = None →
  getParameterMetadata md (SubClass n t) k = getParameterMetadata md t k.
Proof.
  intros Hn. unfold getParameterMetadata.
  by rewrite (proto_get_parent (λ c, PARAMS_KEY md !! (c, k)) n t Hn).
Qed.

(** X1: routes pushed for a class pile up behind the routes the class
    reads, in the order of the calls.  A class that extends the target
    and has no route array of its own reads the very same array and sees
    the pushed routes as well; a class unrelated to the target reads what
    it read before.  The controller, parameter and middleware keys stay
    as they were. *)
Theorem addRouteMetadata_accumulates (md : Metadata) (t : ClassRef)
    (rs : list RouteMetadata) :
  let md' := foldl (λ md r, addRouteMetadata md t r) md rs in
  getRouteMetadata md' t = getRouteMetadata md t ++ rs
  ∧ (∀ n, ROUTES_KEY md !! SubClass n t = None →
          getRouteMetadata md' (SubClass n t)
          = getRouteMetadata md (SubClass n t) ++ rs)
  ∧ (∀ c, unrelated t c → getRouteMetadata md' c = getRouteMetadata md c)
  ∧ CONTROLLER_KEY md' = CONTROLLER_KEY md
  ∧ PARAMS_KEY md' = PARAMS_KEY md
  ∧ MIDDLEWARE_KEY md' = MIDDLEWARE_KEY md.
Proof.
  revert md. induction rs as [|r rs IH]; intros md; simpl.
  - split_and!; try done; intros; by rewrite app_nil_r.
  - destruct (IH (addRouteMetadata md t r)) as (Ht & Hsub & Hun & -> & -> & ->).
    destruct (addRouteMetadata_other_keys md t r) as (-> & -> & ->).
    split_and!; try done.
    + by rewrite Ht, getRouteMetadata_addRouteMetadata, <- app_assoc.
    + intros n Hn.
      assert (Hn' : ROUTES_KEY (addRouteMetadata md t r) !! SubClass n t = None).
      { rewrite ROUTES_KEY_addRouteMetadata; [done|apply subclass_not_in_chain]. }
      rewrite (Hsub n Hn'), !getRouteMetadata_subclass by done.
      by rewrite getRouteMetadata_addRouteMetadata, <- app_assoc.
    + intros c Hc. rewrite (Hun c Hc).
      apply getRouteMetadata_addRouteMetadata_apart. intros x.
      by apply unrelated_elem.
Qed.

Lemma addRouteMetadata_accumulates_witness :
  let r := {| method := "get"; path := "/audit"; propertyKey := "audit" |} in
  getRouteMetadata (addRouteMetadata users_metadata "UserController" r)
    AdminController
  = getRouteMetadata users_metadata AdminController ++ [r]
  ∧ getRouteMetadata (addRouteMetadata users_metadata "UserController" r)
      "PostController"
    = getRouteMetadata users_metadata "PostController".
Proof.
  intros r.
  destruct (addRouteMetadata_accumulates users_metadata "UserController" [r])
    as (_ & Hsub & Hun & _).
  split.
  - apply (Hsub "AdminController"). reflexivity.
  - apply Hun. by apply unrelated_base.
Defined.

(** X2: parameter entries pushed for a method pile up behind the entries
    the class reads for that method name, in the order of the calls.  A
    class that extends the target and has no entries of its own for the
    name reads the same array and sees the pushed entries as well;
    methods with another name, and every method of a class unrelated to
    the target, keep their entries.  The controller, route and
    middleware keys stay as they were. *)
Theorem addParameterMetadata_accumulates (md : Metadata) (t : ClassRef)
    (k : string) (ps : list ParameterMetadata) :
  let md' := foldl (λ md p, addParameterMetadata md t k p) md ps in
  getParameterMetadata md' t k = getParameterMetadata md t k ++ ps
  ∧ (∀ n, PARAMS_KEY md !! (SubClass n t, k) = None →
          getParameterMetadata md' (SubClass n t) k
          = getParameterMetadata md (SubClass n t) k ++ ps)
  ∧ (∀ c k', k ≠ k' ∨ unrelated t c →
             getParameterMetadata md' c k' = getParameterMetadata md c k')
  ∧ CONTROLLER_KEY md' = CONTROLLER_KEY md
  ∧ ROUTES_KEY md' = ROUTES_KEY md
  ∧ MIDDLEWARE_KEY md' = MIDDLEWARE_KEY md.
Proof.
  revert md. induction ps as [|p ps IH]; intros md; simpl.
  - split_and!; try done; intros; by rewrite app_nil_r.
  - destruct (IH (addParameterMetadata md t k p))
      as (Ht & Hsub & Hun & -> & -> & ->).
    destruct (addParameterMetadata_other_keys md t k p) as (-> & -> & ->).
    split_and!; try done.
    + by rewrite Ht, getParameterMetadata_addParameterMetadata, <- app_assoc.
    + intros n Hn.
      assert (Hn' : PARAMS_KEY (addParameterMetadata md t k p) !! (SubClass n t, k)
                    = None).
      { rewrite PARAMS_KEY_addParameterMetadata; [done|].
        right. apply subclass_not_in_chain. }
      rewrite (Hsub n Hn'), !getParameterMetadata_subclass by done.
      by rewrite getParameterMetadata_addParameterMetadata, <- app_assoc.
    + intros c k' Hc. rewrite (Hun c k' Hc).
      by apply getParameterMetadata_addParameterMetadata_other.
Qed.

Lemma addParameterMetadata_accumulates_witness :
  let p := {| type := param; name := Some "id"; index := 0 |} in
  getParameterMetadata
    (addParameterMetadata users_metadata "UserController" "show" p)
    AdminController "show"
  = [p]
  ∧ getParameterMetadata
      (addParameterMetadata users_metadata "UserController" "show" p)
      "UserController" "list"
    = [].
Proof.
  intros p.
  destruct (addParameterMetadata_accumulates users_metadata "UserController"
              "show" [p]) as (_ & Hsub & Hother & _).
  split.
  - apply (Hsub "AdminController"). reflexivity.
  - rewrite Hother; [reflexivity|]. by left.
Defined.

(** X3: [getMiddlewareMetadata] answers a class that reads no middleware
    record with an empty one and stores it; asked again it answers with
    the same record and writes nothing; and it never changes what any
    reader of the metadata sees. *)
Theorem getMiddlewareMetadata_idempotent (md : Metadata) (c : ClassRef) :
  let '(mw, md1) := getMiddlewareMetadata md c in
  getMiddlewareMetadata md1 c = (mw, md1)
  ∧ middlewareRecord md1 c = Some mw
  ∧ (middlewareRecord md c = None →
       classMiddlewares mw = [] ∧ methodMiddlewares mw = ∅
       ∧ MIDDLEWARE_KEY md1 !! c = Some mw)
  ∧ (∀ mw0, middlewareRecord md c = Some mw0 → mw = mw0 ∧ md1 = md)
  ∧ same_meta md md1.
Proof.
  pose proof (getMiddlewareMetadata_reads md c) as (_ & _ & Hk & Hs).
  destruct (getMiddlewareMetadata md c) as [mw md1] eqn:Hg. simpl in *.
  split.
  { unfold getMiddlewareMetadata. unfold middlewareRecord in Hk.
    by destruct (proto_get (λ c0, MIDDLEWARE_KEY md1 !! c0) c) as [[o m]|];
      simplify_eq/=. }
  split; [done|].
  unfold getMiddlewareMetadata in Hg. unfold middlewareRecord.
  destruct (proto_get (λ c0, MIDDLEWARE_KEY md !! c0) c) as [[o mw0]|];
    injection Hg as <- <-.
  - split; [done|]. split; [|done]. by intros ? [= <-].
  - split; [|split; [by intros ? [=]|done]].
    intros _. split_and!; [done|done|]. apply lookup_insert_eq.
Qed.

Lemma getMiddlewareMetadata_idempotent_witness :
  let '(mw, md1) := getMiddlewareMetadata empty_metadata "TestController" in
  getMiddlewareMetadata md1 "TestController" = (mw, md1)
  ∧ classMiddlewares mw = [] ∧ methodMiddlewares mw = ∅.
Proof.
  pose proof (getMiddlewareMetadata_idempotent empty_metadata "TestController")
    as H.
  destruct (getMiddlewareMetadata empty_metadata "TestController") as [mw md1]
    eqn:Hg.
  destruct H as (H1 & _ & H3 & _). split; [exact H1|].
  destruct H3 as (? & ? & _); [reflexivity|done].
Defined.

(** ** Decorators *)

Lemma normalize_path_cases (p : string) :
  normalize_path p
  = if startsWith_slash p then p
    else if truthy_string p then String "/"%char p else p.
Proof.
  unfold normalize_path. destruct p as [|c p]; [done|]. simpl.
  by destruct (decide (c = "/"%char)).
Qed.

Lemma normalize_path_idempotent (p : string) :
  normalize_path (normalize_path p) = normalize_path p.
Proof.
  rewrite (normalize_path_cases p).
  destruct (startsWith_slash p) eqn:Hs; [by rewrite normalize_path_cases, Hs|].
  destruct (truthy_string p) eqn:Ht; [done|].
  by rewrite normalize_path_cases, Hs, Ht.
Qed.

Lemma normalize_path_empty (p : string) : normalize_path p = "" ↔ p = "".
Proof.
  rewrite normalize_path_cases. destruct p as [|c p]; [done|]. simpl.
  by destruct (decide (c = "/"%char)).
Qed.

(** X4: each of Get, Post, Put, Delete, Patch and All appends one route
    to the routes its class reads, with its own verb and the decorated
    method's name.  The stored path is empty exactly when the given path
    is empty or absent, is the given path when that starts with a slash,
    and in every case is empty or starts with a slash; applying the
    slash fix-up to it again changes nothing.  Classes unrelated to the
    decorated one read the routes they read before, and the controller,
    parameter and middleware keys are left as they were. *)
Theorem route_decorator_records
    (decorator : option string → ClassRef → string → Metadata → Metadata)
    (verb : string) (po : option string) (t : ClassRef) (key : string)
    (md : Metadata) :
  (decorator, verb) ∈ [ (Get, "get"); (Post, "post"); (Put, "put");
                        (Delete, "delete"); (Patch, "patch"); (All, "all") ] →
  ∃ r,
    getRouteMetadata (decorator po t key md) t = getRouteMetadata md t ++ [r]
    ∧ (∀ c, unrelated t c →
            getRouteMetadata (decorator po t key md) c = getRouteMetadata md c)
    ∧ method r = verb
    ∧ propertyKey r = key
    ∧ (path r = "" ↔ default "" po = "")
    ∧ (startsWith_slash (default "" po) = true → path r = default "" po)
    ∧ separated (path r) = true
    ∧ normalize_path (path r) = path r
    ∧ CONTROLLER_KEY (decorator po t key md) = CONTROLLER_KEY md
    ∧ PARAMS_KEY (decorator po t key md) = PARAMS_KEY md
    ∧ MIDDLEWARE_KEY (decorator po t key md) = MIDDLEWARE_KEY md.
Proof.
  intros Hin.
  exists {| method := verb; path := normalize_path (default "" po);
            propertyKey := key |}.
  assert (Hd : decorator = createRouteDecorator verb).
  { repeat (apply elem_of_cons in Hin as [Hin|Hin];
            [by injection Hin as -> ->|]).
    by apply elem_of_nil in Hin. }
  subst decorator. unfold createRouteDecorator. cbn [method path propertyKey].
  split; [apply getRouteMetadata_addRouteMetadata|].
  split.
  { intros c Hc. apply getRouteMetadata_addRouteMetadata_apart. intros x.
    by apply unrelated_elem. }
  split; [done|]. split; [done|].
  split; [apply normalize_path_empty|].
  split; [intros Hs; by rewrite normalize_path_cases, Hs|].
  split; [apply separated_normalize_path|].
  split; [apply normalize_path_idempotent|].
  apply addRouteMetadata_other_keys.
Qed.

Lemma route_decorator_records_witness :
  ∃ r,
    getRouteMetadata (Post (Some "/users") "TestController" "createUser"
                        empty_metadata) "TestController"
    = [r]
    ∧ method r = "post" ∧ path r = "/users" ∧ propertyKey r = "createUser".
Proof.
  destruct (route_decorator_records Post "post" (Some "/users") "TestController"
              "createUser" empty_metadata)
    as (r & Hr & _ & Hm & Hk & _ & Hp & _).
  - apply list_elem_of_further, list_elem_of_here.
  - exists r. split; [exact Hr|]. split; [exact Hm|].
    split; [exact (Hp eq_refl)|exact Hk].
Defined.

Lemma addClassMiddleware_other_keys md c f :
  CONTROLLER_KEY (addClassMiddleware md c f) = CONTROLLER_KEY md
  ∧ ROUTES_KEY (addClassMiddleware md c f) = ROUTES_KEY md
  ∧ PARAMS_KEY (addClassMiddleware md c f) = PARAMS_KEY md.
Proof.
  unfold addClassMiddleware.
  destruct (getMiddlewareMetadata_reads md c) as (_&_&_&(Hc&Hr&Hp&_)).
  destruct (getMiddlewareMetadata md c) as [mw md1]; simpl in *.
  by rewrite Hc, Hr, Hp.
Qed.

Lemma addMethodMiddleware_other_keys md c k f :
  CONTROLLER_KEY (addMethodMiddleware md c k f) = CONTROLLER_KEY md
  ∧ ROUTES_KEY (addMethodMiddleware md c k f) = ROUTES_KEY md
  ∧ PARAMS_KEY (addMethodMiddleware md c k f) = PARAMS_KEY md.
Proof.
  unfold addMethodMiddleware.
  destruct (getMiddlewareMetadata_reads md c) as (_&_&_&(Hc&Hr&Hp&_)).
  destruct (getMiddlewareMetadata md c) as [mw md1]; simpl in *.
  by rewrite Hc, Hr, Hp.
Qed.

Lemma addClassMiddlewares_reads md c fs :
  let md' := foldl (λ md f, addClassMiddleware md c f) md fs in
  classMiddlewaresOf md' c = classMiddlewaresOf md c ++ fs
  ∧ (∀ c', unrelated c c' → classMiddlewaresOf md' c' = classMiddlewaresOf md c')
  ∧ (∀ c' k, methodMiddlewaresOf md' c' k = methodMiddlewaresOf md c' k)
  ∧ CONTROLLER_KEY md' = CONTROLLER_KEY md
  ∧ ROUTES_KEY md' = ROUTES_KEY md
  ∧ PARAMS_KEY md' = PARAMS_KEY md.
Proof.
  revert md. induction fs as [|f fs IH]; intros md; simpl.
  - split_and!; try done. by rewrite app_nil_r.
  - destruct (IH (addClassMiddleware md c f)) as (Hc & Hun & Hm & -> & -> & ->).
    destruct (addClassMiddleware_other_keys md c f) as (-> & -> & ->).
    split_and!; try done.
    + destruct (addClassMiddleware_view md c f c) as (b & Hv & _ & Hb & _).
      rewrite Hc, Hv, Hb by done. by rewrite <- app_assoc.
    + intros c' Hc'.
      destruct (addClassMiddleware_view md c f c') as (b & Hv & _ & _ & Hb).
      rewrite (Hun c' Hc'), Hv, Hb by done. by rewrite app_nil_r.
    + intros c' k.
      destruct (addClassMiddleware_view md c f c') as (b & _ & Hv & _).
      by rewrite Hm, Hv.
Qed.

Lemma addMethodMiddlewares_reads md c key fs :
  let md' := foldl (λ md f, addMethodMiddleware md c key f) md fs in
  methodMiddlewaresOf md' c key = methodMiddlewaresOf md c key ++ fs
  ∧ (∀ c' k, key ≠ k ∨ unrelated c c' →
             methodMiddlewaresOf md' c' k = methodMiddlewaresOf md c' k)
  ∧ (∀ c', classMiddlewaresOf md' c' = classMiddlewaresOf md c')
  ∧ CONTROLLER_KEY md' = CONTROLLER_KEY md
  ∧ ROUTES_KEY md' = ROUTES_KEY md
  ∧ PARAMS_KEY md' = PARAMS_KEY md.
Proof.
  revert md. induction fs as [|f fs IH]; intros md; simpl.
  - split_and!; try done. by rewrite app_nil_r.
  - destruct (IH (addMethodMiddleware md c key f))
      as (Hm & Hun & Hc & -> & -> & ->).
    destruct (addMethodMiddleware_other_keys md c key f) as (-> & -> & ->).
    split_and!; try done.
    + destruct (addMethodMiddleware_view md c key f c) as (b & _ & Hv & Hb & _).
      rewrite Hm, Hv, Hb by done. simpl.
      rewrite bool_decide_eq_true_2 by done. by rewrite <- app_assoc.
    + intros c' k Hk.
      destruct (addMethodMiddleware_view md c key f c') as (b & _ & Hv & _ & Hb).
      rewrite (Hun c' k Hk), Hv.
      destruct Hk as [Hk|Hk].
      * rewrite bool_decide_eq_false_2 by done.
        rewrite andb_false_r. by rewrite app_nil_r.
      * rewrite Hb by done. by rewrite app_nil_r.
    + intros c'.
      destruct (addMethodMiddleware_view md c key f c') as (b & Hv & _).
      by rewrite Hc, Hv.
Qed.

Lemma getControllerMetadata_setControllerMetadata md t m :
  getControllerMetadata (setControllerMetadata md t m) t = Some m
  ∧ (∀ n, CONTROLLER_KEY md !! SubClass n t = None →
          getControllerMetadata (setControllerMetadata md t m) (SubClass n t)
          = Some m)
  ∧ (∀ c, t ∉ prototype_chain c →
          getControllerMetadata (setControllerMetadata md t m) c
          = getControllerMetadata md c).
Proof.
  assert (Hself : getControllerMetadata (setControllerMetadata md t m) t = Some m).
  { unfold getControllerMetadata.
    rewrite (proto_get_own _ t m); [done|]. apply lookup_insert_eq. }
  split; [exact Hself|]. split.
  - intros n Hn. unfold getControllerMetadata in *.
    rewrite proto_get_parent; [done|].
    unfold setControllerMetadata. cbn [CONTROLLER_KEY].
    rewrite lookup_insert_ne; [done|].
    intros Heq. apply (subclass_not_in_chain n t). rewrite <- Heq.
    apply prototype_chain_self.
  - intros c Hc. unfold getControllerMetadata, proto_get. f_equal.
    apply chain_lookup_ext. intros x Hx. apply lookup_insert_ne. by intros ->.
Qed.

(** X5: the controller decorator stores on its class the prefix with the
    slash fix-up applied and the nested controllers of the options (none
    for the string and the no-argument forms), replacing what an earlier
    decorator stored there; a class that extends the decorated one and
    carries no controller metadata of its own reads the same metadata,
    and a class that does not extend it reads what it read before.  The
    middlewares of the options are appended, in order, to the
    class-level middlewares the class reads; routes, parameter entries
    and method-level middlewares stay as they were. *)
Theorem Controller_stores (arg : option (string + ControllerOptions))
    (t : ClassRef) (md : Metadata) :
  let options := controllerOptionsOf arg in
  let stored := {| prefix := normalize_path (co_path options);
                   controllers := default [] (co_controllers options) |} in
  let md' := Controller arg t md in
  getControllerMetadata md' t = Some stored
  ∧ (∀ n, CONTROLLER_KEY md !! SubClass n t = None →
          getControllerMetadata md' (SubClass n t) = Some stored)
  ∧ (∀ c, t ∉ prototype_chain c →
          getControllerMetadata md' c = getControllerMetadata md c)
  ∧ classMiddlewaresOf md' t
    = classMiddlewaresOf md t ++ default [] (co_middlewares options)
  ∧ (∀ c, unrelated t c → classMiddlewaresOf md' c = classMiddlewaresOf md c)
  ∧ (∀ c k, methodMiddlewaresOf md' c k = methodMiddlewaresOf md c k)
  ∧ ROUTES_KEY md' = ROUTES_KEY md
  ∧ PARAMS_KEY md' = PARAMS_KEY md
  ∧ (arg = None ∨ (∃ s, arg = Some (inl s)) → co_controllers options = Some []
                                               ∧ co_middlewares options = None).
Proof.
  intros options stored md'.
  set (md1 := setControllerMetadata md t stored).
  destruct (getControllerMetadata_setControllerMetadata md t stored)
    as (Hself & Hsub & Hfar). fold md1 in Hself, Hsub, Hfar.
  assert (Hlast : arg = None ∨ (∃ s, arg = Some (inl s)) →
                  co_controllers options = Some [] ∧ co_middlewares options = None).
  { intros [->|[s ->]]; done. }
  assert (Hmd' : md' = match co_middlewares options with
                       | Some (m :: ms) =>
                           foldl (λ md f, addClassMiddleware md t f) md1 (m :: ms)
                       | _ => md1
                       end) by done.
  destruct (co_middlewares options) as [[|m ms]|] eqn:Hmw; simpl;
    rewrite Hmd'; clear Hmd'.
  1,3: (split_and!; try done; by rewrite app_nil_r).
  destruct (addClassMiddlewares_reads md1 t (m :: ms))
    as (Hc & Hun & Hm & Hk & Hr & Hp).
  split_and!; try done.
  - by rewrite (getControllerMetadata_same _ md1 t Hk).
  - intros n Hn. rewrite (getControllerMetadata_same _ md1 _ Hk). by apply Hsub.
  - intros c Hc'. rewrite (getControllerMetadata_same _ md1 _ Hk). by apply Hfar.
Qed.

Lemma Controller_stores_witness :
  co_controllers (controllerOptionsOf (Some (inl "api"))) = Some []
  ∧ getControllerMetadata (Controller (Some (inl "api")) "ApiController"
                             empty_metadata) "ApiController"
    = Some {| prefix := "/api"; controllers := [] |}
  ∧ getControllerMetadata (Controller (Some (inl "api")) "ApiController"
                             empty_metadata)
      (SubClass "AdminController" "ApiController")
    = Some {| prefix := "/api"; controllers := [] |}.
Proof.
  destruct (Controller_stores (Some (inl "api")) "ApiController" empty_metadata)
    as (Hc & Hsub & _ & _ & _ & _ & _ & _ & Hopt).
  split; [apply Hopt; right; by exists "api"|].
  split; [rewrite Hc; reflexivity|].
  rewrite (Hsub "AdminController"); reflexivity.
Defined.

(** X6: on a class, [UseMiddleware] appends its middlewares, in argument
    order, to the class-level list the class reads and leaves every
    method-level list alone; on a method it appends them to the list the
    class reads for that method and leaves the class-level lists and the
    lists of methods with another name alone.  Classes unrelated to the
    decorated one read what they read before.  Controller metadata,
    routes and parameter entries are never touched. *)
Theorem UseMiddleware_appends (mws : list FunctionRef) (t : ClassRef)
    (key : option string) (md : Metadata) :
  let md' := UseMiddleware mws t key md in
  match key with
  | Some (String a k) =>
      methodMiddlewaresOf md' t (String a k)
      = methodMiddlewaresOf md t (String a k) ++ mws
      ∧ (∀ c k', String a k ≠ k' ∨ unrelated t c →
                 methodMiddlewaresOf md' c k' = methodMiddlewaresOf md c k')
      ∧ (∀ c, classMiddlewaresOf md' c = classMiddlewaresOf md c)
  | _ =>
      classMiddlewaresOf md' t = classMiddlewaresOf md t ++ mws
      ∧ (∀ c, unrelated t c → classMiddlewaresOf md' c = classMiddlewaresOf md c)
      ∧ (∀ c k', methodMiddlewaresOf md' c k' = methodMiddlewaresOf md c k')
  end
  ∧ CONTROLLER_KEY md' = CONTROLLER_KEY md
  ∧ ROUTES_KEY md' = ROUTES_KEY md
  ∧ PARAMS_KEY md' = PARAMS_KEY md.
Proof.
  intros md'. subst md'. unfold UseMiddleware.
  destruct key as [[|a k]|].
  1,3: destruct (addClassMiddlewares_reads md t mws) as (Hc & Hun & Hm & ?);
       (split; [split_and!; done|done]).
  destruct (addMethodMiddlewares_reads md t (String a k) mws)
    as (Hm & Hun & Hc & ?).
  split; [split_and!; done|done].
Qed.

Lemma UseMiddleware_appends_witness :
  classMiddlewaresOf
    (UseMiddleware ["auth"; "audit"] "UserController" None users_metadata)
    "UserController"
  = ["auth"; "audit"]
  ∧ classMiddlewaresOf
      (UseMiddleware ["auth"; "audit"] "UserController" None users_metadata)
      "PostController"
    = [].
Proof.
  destruct (UseMiddleware_appends ["auth"; "audit"] "UserController" None
              users_metadata) as ((Hc & Hun & _) & _).
  split; [rewrite Hc; reflexivity|].
  rewrite Hun; [reflexivity|]. by apply unrelated_base.
Defined.

(** X7: a parameter decorator on a method appends one entry with its
    kind, its name and the parameter's index to the entries the class
    reads for that method, and leaves the entries of methods with
    another name and of classes unrelated to the decorated one, and the
    other keys, as they were; without a property key (a constructor
    parameter) it throws and stores nothing.  Param, Query and Headers
    record their kind with the name given, Body with the name if any,
    Req and Res without a name. *)
Theorem parameter_decorator_records (ty : ParameterType) (nm : option string)
    (t : ClassRef) (key : option string) (i : nat) (md : Metadata) :
  match key with
  | Some (String a k) =>
      ∃ md', createParameterDecorator ty nm t key i md = Return md'
             ∧ getParameterMetadata md' t (String a k)
               = getParameterMetadata md t (String a k)
                 ++ [{| type := ty; name := nm; index := i |}]
             ∧ (∀ c k', String a k ≠ k' ∨ unrelated t c →
                        getParameterMetadata md' c k'
                        = getParameterMetadata md c k')
             ∧ CONTROLLER_KEY md' = CONTROLLER_KEY md
             ∧ ROUTES_KEY md' = ROUTES_KEY md
             ∧ MIDDLEWARE_KEY md' = MIDDLEWARE_KEY md
  | _ => ∃ e, createParameterDecorator ty nm t key i md = Throw e
  end
  ∧ (∀ n, Param n = createParameterDecorator param (Some n)
          ∧ Query n = createParameterDecorator query (Some n)
          ∧ Headers n = createParameterDecorator headers (Some n))
  ∧ Body = createParameterDecorator body
  ∧ Req = createParameterDecorator req None
  ∧ Res = createParameterDecorator res None.
Proof.
  split; [|done].
  destruct key as [[|a k]|]; simpl; try by eexists.
  eexists. split; [done|].
  split; [apply getParameterMetadata_addParameterMetadata|].
  split; [intros c k' Hc; by apply getParameterMetadata_addParameterMetadata_other|].
  apply addParameterMetadata_other_keys.
Qed.

Lemma parameter_decorator_records_witness :
  ∃ md', Param "id" "UserController" (Some "show") 0 users_metadata = Return md'
         ∧ getParameterMetadata md' "UserController" "show"
           = [{| type := param; name := Some "id"; index := 0 |}]
         ∧ getParameterMetadata md' "UserController" "list" = [].
Proof.
  destruct (parameter_decorator_records param (Some "id") "UserController"
              (Some "show") 0 users_metadata)
    as ((md' & Hd & Hself & Hother & _) & _).
  exists md'. split; [exact Hd|]. split; [rewrite Hself; reflexivity|].
  rewrite Hother; [reflexivity|]. by left.
Defined.

(** ** Parameter resolution *)

Lemma parameter_eta (e : ParameterMetadata) :
  {| type := type e; name := name e; index := index e |} = e.
Proof. by destruct e. Qed.

Lemma decorateParameters_reads t a k es md :
  ∃ md', decorateParameters t (Some (String a k)) es md = Return md'
         ∧ getParameterMetadata md' t (String a k)
           = getParameterMetadata md t (String a k) ++ es.
Proof.
  revert md. induction es as [|e es IH]; intros md; simpl.
  - exists md. by rewrite app_nil_r.
  - destruct (IH (addParameterMetadata md t (String a k)
                    {| type := type e; name := name e; index := index e |}))
      as (md' & Hd & Hg).
    exists md'. split; [exact Hd|].
    rewrite Hg, getParameterMetadata_addParameterMetadata.
    by rewrite parameter_eta, <- app_assoc.
Qed.

Lemma sort_insert_head x l :
  Forall (le_index x) l → sort_insert compareIndex x l = x :: l.
Proof.
  intros Hl. destruct l as [|y l]; [done|]. simpl.
  apply Forall_cons in Hl as [Hy _]. unfold compareIndex, le_index in *.
  destruct (Z.leb_spec (Z.of_nat (index x) - Z.of_nat (index y)) 0); [done|lia].
Qed.

Lemma sort_sorted_id l :
  StronglySorted le_index l → sort compareIndex l = l.
Proof.
  induction 1 as [|x l Hl IH Hx]; [done|].
  simpl. rewrite IH. by apply sort_insert_head.
Qed.

Lemma declared_indices decl :
  index <$> declared decl = seq 0 (length decl).
Proof.
  unfold declared. apply list_eq. intros i.
  rewrite list_lookup_fmap, list_lookup_imap.
  destruct (decl !! i) as [tn|] eqn:Hi; simpl.
  - symmetry. apply lookup_seq. split; [done|]. by eapply lookup_lt_Some.
  - symmetry. apply lookup_seq_ge. by apply lookup_ge_None.
Qed.

Lemma declared_sorted decl : StronglySorted le_index (declared decl).
Proof.
  assert (H : StronglySorted le (index <$> declared decl))
    by (rewrite declared_indices; apply seq_sorted).
  induction (declared decl) as [|x l IH]; [constructor|].
  rewrite fmap_cons in H. apply StronglySorted_inv in H as [Hl Hx].
  constructor; [by apply IH|].
  rewrite Forall_fmap in Hx. exact Hx.
Qed.

(** X8: when each parameter of a method carries one decorator, the
    handler's arguments come out in declaration order whatever the order
    in which the decorators ran: applying them in any order to a method
    without entries stores a list that [resolveParameters] resolves as
    the declared parameters, first to last. *)
Theorem parameters_in_declaration_order
    (decl : list (ParameterType * option string))
    (order : list ParameterMetadata) (t : ClassRef) (a : ascii) (k : string)
    (md : Metadata) (rq : Request) :
  getParameterMetadata md t (String a k) = [] →
  order ≡ₚ declared decl →
  ∃ md',
    decorateParameters t (Some (String a k)) order md = Return md'
    ∧ getParameterMetadata md' t (String a k) = order
    ∧ resolveParameters (getParameterMetadata md' t (String a k)) rq
      = mapC (resolveParameter rq) (declared decl).
Proof.
  intros Hnone Hperm.
  destruct (decorateParameters_reads t a k order md) as (md' & Hd & Hg).
  rewrite Hnone in Hg. simpl in Hg.
  exists md'. split; [exact Hd|]. split; [exact Hg|].
  rewrite Hg. unfold resolveParameters. f_equal.
  rewrite (sort_respects_Permutation order (declared decl)); [|..|exact Hperm].
  - apply sort_sorted_id, declared_sorted.
  - rewrite Hperm, declared_indices. apply NoDup_seq.
Qed.

Lemma parameters_in_declaration_order_witness :
  ∃ md',
    decorateParameters "TestController" (Some "getPost") getPost_params
      empty_metadata = Return md'
    ∧ resolveParameters (getParameterMetadata md' "TestController" "getPost")
        sample_request
      = Return [VString "param:userId"; VString "param:postId"].
Proof.
  destruct (parameters_in_declaration_order
              [(param, Some "userId"); (param, Some "postId")]
              getPost_params "TestController" "g"%char "etPost"
              empty_metadata sample_request eq_refl (Permutation_swap _ _ _))
    as (md' & Hd & _ & Hr).
  exists md'. split; [exact Hd|]. rewrite Hr. reflexivity.
Defined.

Lemma mapC_Return_length {A B} (f : A → Completion B) l ys :
  mapC f l = Return ys → length ys = length l.
Proof.
  revert ys. induction l as [|x l IH]; intros ys Hm; simpl in Hm.
  - by injection Hm as <-.
  - destruct (f x) as [y|e]; [|discriminate Hm]. simpl in Hm.
    destruct (mapC f l) as [zs|e]; [|discriminate Hm].
    injection Hm as <-. simpl. f_equal. by apply IH.
Qed.

Lemma mapC_Throw {A B} (f : A → Completion B) l e :
  mapC f l = Throw e ↔
  ∃ before x after ys,
    l = before ++ x :: after ∧ mapC f before = Return ys ∧ f x = Throw e.
Proof.
  split.
  - induction l as [|x l IH]; intros Hm; [discriminate Hm|]. simpl in Hm.
    destruct (f x) as [y|e'] eqn:Hfx.
    + simpl in Hm. destruct (mapC f l) as [zs|e'] eqn:Hml; [discriminate Hm|].
      injection Hm as ->.
      destruct (IH eq_refl) as (before & x' & after & ys & -> & Hb & Hx').
      exists (x :: before), x', after, (y :: ys). split; [done|].
      split; [|done]. simpl. by rewrite Hfx, Hb.
    + injection Hm as ->. by exists [], x, l, [].
  - intros (before & x & after & ys & -> & Hb & Hx).
    revert ys Hb. induction before as [|b before IH]; intros ys Hb; simpl.
    + by rewrite Hx.
    + simpl in Hb. destruct (f b) as [y|e']; [|discriminate Hb]. simpl in *.
      destruct (mapC f before) as [zs|e']; [|discriminate Hb].
      by rewrite (IH zs eq_refl).
Qed.

(** X9: when [resolveParameters] returns, the array has one value per
    metadata entry; it throws exactly when the resolution of some entry
    throws, and then with the error of the first such entry in index
    order, all entries before it having resolved. *)
Theorem resolveParameters_first_throw (params : list ParameterMetadata)
    (rq : Request) :
  (∀ args, resolveParameters params rq = Return args →
           length args = length params)
  ∧ (∀ e, resolveParameters params rq = Throw e ↔
          ∃ before p after values,
            sort compareIndex params = before ++ p :: after
            ∧ mapC (resolveParameter rq) before = Return values
            ∧ resolveParameter rq p = Throw e).
Proof.
  split.
  - intros args Hr. apply mapC_Return_length in Hr.
    by rewrite Hr, sort_Permutation.
  - intros e. apply mapC_Throw.
Qed.

Lemma resolveParameters_first_throw_witness :
  resolveParameters
    [ {| type := body; name := Some "name"; index := 1 |};
      {| type := param; name := Some "id"; index := 0 |} ]
    sample_request
  = Throw (new_TypeError "Cannot read properties").
Proof.
  apply (proj2 (resolveParameters_first_throw _ sample_request)).
  exists [ {| type := param; name := Some "id"; index := 0 |} ],
    {| type := body; name := Some "name"; index := 1 |}, [],
    [VString "param:id"].
  repeat split; reflexivity.
Defined.

(** X10: resolution cannot fail on route parameters, query parameters,
    the whole body, the request or the response: a method whose entries
    are all of these kinds always gets its arguments, one per entry.
    Only a named body property and a header read can throw. *)
Theorem resolveParameters_plain_reads_return (params : list ParameterMetadata)
    (rq : Request) :
  Forall (λ p, reads_plainly p = true) params →
  ∃ args, resolveParameters params rq = Return args
          ∧ length args = length params.
Proof.
  intros Hall.
  assert (Hs : Forall (λ p, reads_plainly p = true) (sort compareIndex params))
    by (by rewrite sort_Permutation).
  unfold resolveParameters.
  assert (H : ∃ args, mapC (resolveParameter rq) (sort compareIndex params)
                      = Return args).
  { induction Hs as [|p l Hp _ [args IH]]; [by eexists|].
    simpl. rewrite IH.
    unfold reads_plainly in Hp. unfold resolveParameter.
    destruct (type p); try discriminate Hp; try by eexists.
    destruct (name p) as [[|??]|]; try discriminate Hp; by eexists. }
  destruct H as [args Hargs]. exists args. split; [exact Hargs|].
  apply mapC_Return_length in Hargs. by rewrite Hargs, sort_Permutation.
Qed.

Lemma resolveParameters_plain_reads_return_witness :
  ∃ args, resolveParameters getPost_params sample_request = Return args
          ∧ length args = 2.
Proof.
  apply (resolveParameters_plain_reads_return getPost_params sample_request).
  repeat constructor.
Defined.

(** ** Resource routes *)

Lemma split_without_separator (s : string) :
  includes "." s = false → split "."%char s = [s].
Proof.
  induction s as [|c s IH]; [done|]. simpl.
  intros Hi. apply orb_false_iff in Hi as [Hc Hs].
  rewrite andb_true_r in Hc. apply bool_decide_eq_false in Hc.
  rewrite decide_False by congruence. by rewrite (IH Hs).
Qed.

Lemma registerActions_other_keys target members segments actions md :
  let md' := foldl (registerAction target members segments) md actions in
  CONTROLLER_KEY md' = CONTROLLER_KEY md
  ∧ PARAMS_KEY md' = PARAMS_KEY md
  ∧ MIDDLEWARE_KEY md' = MIDDLEWARE_KEY md
  ∧ ∀ t', unrelated target t' → getRouteMetadata md' t' = getRouteMetadata md t'.
Proof.
  revert md. induction actions as [|a actions IH]; intros md; simpl; [done|].
  destruct (IH (registerAction target members segments md a))
    as (Hc & Hp & Hm & Hr).
  rewrite Hc, Hp, Hm. clear Hc Hp Hm.
  assert (Hstep : CONTROLLER_KEY (registerAction target members segments md a)
                  = CONTROLLER_KEY md
                  ∧ PARAMS_KEY (registerAction target members segments md a)
                    = PARAMS_KEY md
                  ∧ MIDDLEWARE_KEY (registerAction target members segments md a)
                    = MIDDLEWARE_KEY md
                  ∧ ∀ t', unrelated target t' →
                      getRouteMetadata (registerAction target members segments md a) t'
                      = getRouteMetadata md t').
  { unfold registerAction. destruct (negb (members (ra_name a))); [done|].
    destruct (addRouteMetadata_other_keys md target
                {| method := ra_method a;
                   path := "/" +:+ join "/"
                     (slice0 (if ra_placeholder a
                              then Z.of_nat (length segments) else (-1)%Z)
                        segments);
                   propertyKey := ra_name a |}) as (-> & -> & ->).
    split_and!; try done. intros t' Hun.
    apply getRouteMetadata_addRouteMetadata_apart. intros x.
    by apply unrelated_elem. }
  destruct Hstep as (-> & -> & -> & Hr1).
  split_and!; try done. intros t' Hun. rewrite Hr by done. by apply Hr1.
Qed.

(** X11: for a resource whose name has no dot, index and create get the
    path of the name behind a slash, and show, update, patch and delete
    get that path followed by a slash and the placeholder of the name;
    the routes are appended for the conventional methods the class has,
    in the order index, show, create, update, patch, delete. *)
Theorem Resource_plain_name_paths (singular : string → string)
    (Object_prototype : string → option string)
    (pathOrOptions : string + ResourceOptions) (t : ClassRef)
    (members : string → bool) (md : Metadata) :
  let options := resourceOptionsOf pathOrOptions in
  let name := ro_path options in
  includes "." name = false →
  getRouteMetadata (Resource singular Object_prototype pathOrOptions t members md) t
  = getRouteMetadata md t
    ++ ((λ a, {| method := ra_method a;
                 path := if ra_placeholder a
                         then "/" +:+ name +:+ "/" +:+ ":"
                              +:+ placeholder_name singular Object_prototype options name
                         else "/" +:+ name;
                 propertyKey := ra_name a |})
          <$> List.filter (λ a, members (ra_name a)) resourceActions).
Proof.
  intros options name Hdot. unfold Resource. fold options.
  rewrite registerActions_routes, getRouteMetadata_setControllerMetadata.
  f_equal. apply list_fmap_ext. intros _ a _. unfold action_route. f_equal.
  unfold createSegments. fold name. rewrite (split_without_separator _ Hdot).
  simpl. by destruct (ra_placeholder a).
Qed.

Lemma Resource_plain_name_paths_witness :
  getRouteMetadata
    (Resource drop_final_s Object_members (inl "users") "UsersResource"
       (λ n, bool_decide (n ∈ ["index"; "delete"])) empty_metadata)
    "UsersResource"
  = [ {| method := "get"; path := "/users"; propertyKey := "index" |};
      {| method := "delete"; path := "/users/:userId"; propertyKey := "delete" |} ].
Proof.
  rewrite (Resource_plain_name_paths drop_final_s Object_members (inl "users") "UsersResource"
             (λ n, bool_decide (n ∈ ["index"; "delete"])) empty_metadata eq_refl).
  reflexivity.
Defined.

Lemma filter_none {A} (f : A → bool) (l : list A) :
  Forall (λ a, f a = false) l → List.filter f l = [].
Proof. induction 1 as [|a l Ha _ IH]; [done|]. simpl. by rewrite Ha. Qed.

(** X12: the resource decorator stores on its class controller metadata
    with the empty prefix and the nested controllers of its options
    (none for a name given as a string), replacing what was stored
    there; a class that extends the decorated one and carries no
    controller metadata of its own reads the same metadata, and a class
    that does not extend it reads what it read before.  The decorator
    registers no middleware, also not the one listed in its options,
    writes no parameter entry, leaves the routes of unrelated classes
    alone, and adds no route to a class that has none of the six
    conventional methods. *)
Theorem Resource_frame (singular : string → string)
    (Object_prototype : string → option string)
    (pathOrOptions : string + ResourceOptions) (t : ClassRef)
    (members : string → bool) (md : Metadata) :
  let nested := match pathOrOptions with
                | inl _ => []
                | inr o => default [] (ro_controllers o)
                end in
  let stored := {| prefix := ""; controllers := nested |} in
  let md' := Resource singular Object_prototype pathOrOptions t members md in
  getControllerMetadata md' t = Some stored
  ∧ (∀ n, CONTROLLER_KEY md !! SubClass n t = None →
          getControllerMetadata md' (SubClass n t) = Some stored)
  ∧ (∀ c, t ∉ prototype_chain c →
          getControllerMetadata md' c = getControllerMetadata md c)
  ∧ MIDDLEWARE_KEY md' = MIDDLEWARE_KEY md
  ∧ PARAMS_KEY md' = PARAMS_KEY md
  ∧ (∀ c, unrelated t c → getRouteMetadata md' c = getRouteMetadata md c)
  ∧ (Forall (λ a, members (ra_name a) = false) resourceActions →
       getRouteMetadata md' t = getRouteMetadata md t).
Proof.
  intros nested stored md'. subst md'. unfold Resource.
  set (options := resourceOptionsOf pathOrOptions).
  set (segments := createSegments singular Object_prototype options).
  assert (Hnested : default [] (ro_controllers options) = nested)
    by (by destruct pathOrOptions).
  rewrite Hnested. fold stored.
  set (md1 := setControllerMetadata md t stored).
  destruct (registerActions_other_keys t members segments resourceActions md1)
    as (Hc & Hp & Hm & Hr).
  destruct (getControllerMetadata_setControllerMetadata md t stored)
    as (Hself & Hsub & Hfar). fold md1 in Hself, Hsub, Hfar.
  split_and!.
  - by rewrite (getControllerMetadata_same _ md1 t Hc).
  - intros n Hn. rewrite (getControllerMetadata_same _ md1 _ Hc). by apply Hsub.
  - intros c Hc'. rewrite (getControllerMetadata_same _ md1 _ Hc). by apply Hfar.
  - by rewrite Hm.
  - by rewrite Hp.
  - intros c Hc'. by rewrite Hr.
  - intros Hnone. rewrite registerActions_routes.
    replace (List.filter (λ a, members (ra_name a)) resourceActions)
      with (@nil ResourceAction);
      [rewrite fmap_nil, app_nil_r; apply getRouteMetadata_setControllerMetadata|].
    symmetry. by apply filter_none.
Qed.

Lemma Resource_frame_witness :
  let options :=
    {| ro_path := "users"; ro_parameters := None;
       ro_controllers := Some [BaseClass "CommentsResource"];
       ro_middlewares := Some ["authMiddleware"] |} in
  let md' := Resource drop_final_s Object_members (inr options) "UsersResource"
               (λ _, false) empty_metadata in
  getControllerMetadata md' "UsersResource"
  = Some {| prefix := ""; controllers := [BaseClass "CommentsResource"] |}
  ∧ classMiddlewaresOf md' "UsersResource" = []
  ∧ getRouteMetadata md' "UsersResource" = [].
Proof.
  intros options md'.
  destruct (Resource_frame drop_final_s Object_members (inr options)
              "UsersResource" (λ _, false) empty_metadata)
    as (Hc & _ & _ & Hm & _ & _ & Hr).
  fold md' in Hc, Hm, Hr. split; [exact Hc|]. split.
  - unfold classMiddlewaresOf, middlewareRecord. rewrite Hm. reflexivity.
  - rewrite Hr; [reflexivity|]. repeat constructor.
Defined.

(** ** Controller registration and the container *)










(** ** Application bootstrap *)





(** ** Error translation *)

(** X16: a thrown string, number or boolean (that is truthy) is answered
    with status 500 and the message "Internal Server Error": it has no
    status, message or stack property, so the thrown value itself does
    not reach the response. *)
Theorem errorHandler_thrown_primitive (isDev : bool) (err : Value)
    (rs : Response) :
  truthy err = true →
  (∃ s, err = VString s) ∨ (∃ n, err = VNumber n) ∨ (∃ b, err = VBool b) →
  errorHandler isDev err rs
  = respond rs
      {| sent_status := VNumber 500;
         sent_body := {| statusCode := VNumber 500;
                         message := VString "Internal Server Error";
                         stack := if isDev then Some VUndefined else None |} |}.
Proof.
  intros Ht [[s ->]|[[n ->]|[b ->]]]; destruct isDev;
    cbv -[status json]; by destruct (status rs _).
Qed.

Lemma errorHandler_thrown_primitive_witness :
  errorHandler false (VString "boom") strict_response
  = ([ res_status (VNumber 500);
       res_json (VObject PlainObject
                   [ ("statusCode", VNumber 500);
                     ("message", VString "Internal Server Error") ]) ],
     Return tt).
Proof.
  rewrite (errorHandler_thrown_primitive false (VString "boom") strict_response
             eq_refl); [reflexivity|].
  left. by exists "boom".
Defined.

(** X17: for an error that is not an [HttpException] the handler never
    hands a falsy status or message to the response: the status given
    to [res.status] is truthy and equals the [statusCode] of the body,
    the message is truthy, and the body carries a stack entry in
    development mode only.  The body is sent when [res.status] accepts
    the status, and then the handler completes as [res.json] does; when
    [res.status] throws, the handler throws with it and sends nothing.
    An [HttpException] is passed on as it is: one made with the empty
    message is answered with the empty message. *)
Theorem errorHandler_foreign_defaults (isDev : bool) (err : Value)
    (rs : Response) :
  truthy err = true →
  instanceof_HttpException err = false →
  (∃ r, errorHandler isDev err rs = respond rs r
        ∧ truthy (sent_status r) = true
        ∧ statusCode (sent_body r) = sent_status r
        ∧ truthy (message (sent_body r)) = true
        ∧ (stack (sent_body r) = None ↔ isDev = false)
        ∧ (status rs (sent_status r) = Return tt →
             errorHandler isDev err rs
             = ([res_status (sent_status r); res_json (body_object (sent_body r))],
                json rs (body_object (sent_body r))))
        ∧ (∀ e, status rs (sent_status r) = Throw e →
                errorHandler isDev err rs = ([res_status (sent_status r)], Throw e)))
  ∧ ∀ code stk,
      errorHandler isDev (HttpException code "" stk) rs
      = respond rs
          {| sent_status := VNumber code;
             sent_body := {| statusCode := VNumber code; message := VString "";
                             stack := stack_field isDev (VString stk) |} |}.
Proof.
  intros Ht Hi. split.
  2: { intros code stk. destruct isDev; cbv -[status json];
       by destruct (status rs _). }
  assert (Hr : ∃ r, errorHandler isDev err rs = respond rs r
                    ∧ truthy (sent_status r) = true
                    ∧ statusCode (sent_body r) = sent_status r
                    ∧ truthy (message (sent_body r)) = true
                    ∧ (stack (sent_body r) = None ↔ isDev = false)).
  { destruct (errorHandler_respond isDev err rs Ht)
      as (code & msg & stk & Hs & Hm & Hk & _ & Hother).
    eexists. split; [exact (Hother Hi)|]. simpl.
    split_and!; [| done | |].
    - unfold js_or. by destruct (truthy code) eqn:E.
    - unfold js_or. by destruct (truthy msg) eqn:E.
    - by destruct isDev. }
  destruct Hr as (r & Hr & H1 & H2 & H3 & H4). exists r.
  split_and!; try done.
  - intros Hok. by rewrite Hr, respond_outcome, Hok.
  - intros e He. by rewrite Hr, respond_outcome, He.
Qed.

Lemma errorHandler_foreign_defaults_witness :
  ∃ r, errorHandler true
         (VObject ErrorClass [("message", VString ""); ("status", VNumber 0)])
         strict_response
       = respond strict_response r
       ∧ truthy (sent_status r) = true
       ∧ truthy (message (sent_body r)) = true
       ∧ statusCode (sent_body r) = sent_status r.
Proof.
  destruct (errorHandler_foreign_defaults true
              (VObject ErrorClass [("message", VString ""); ("status", VNumber 0)])
              strict_response eq_refl eq_refl)
    as [(r & Hr & H1 & H2 & H3 & _) _].
  by exists r.
Defined.

(** ** Exceptions *)

(** X18: every canned exception keeps its fixed status whatever message
    it is made with; its message is the one given, or the default when
    none is given; its name is the name of its class; it records the
    stack; and it is an instance of [HttpException].  The base class
    carries the status and message it is given under the name
    [HttpException]. *)
Theorem canned_exception_fields (m : option string) (stk : string) :
  Forall
    (λ '(construct, status, nm, dflt),
       get_property (construct m stk) "status" = Return (VNumber status)
       ∧ get_property (construct m stk) "message"
         = Return (VString (default dflt m))
       ∧ get_property (construct m stk) "name" = Return (VString nm)
       ∧ get_property (construct m stk) "stack" = Return (VString stk)
       ∧ instanceof_HttpException (construct m stk) = true)
    [ (BadRequestException, 400%Z, "BadRequestException", "Bad Request");
      (UnauthorizedException, 401%Z, "UnauthorizedException", "Unauthorized");
      (ForbiddenException, 403%Z, "ForbiddenException", "Forbidden");
      (NotFoundException, 404%Z, "NotFoundException", "Not Found");
      (ConflictException, 409%Z, "ConflictException", "Conflict");
      (InternalServerErrorException, 500%Z, "InternalServerErrorException",
       "Internal Server Error") ]
  ∧ ∀ status msg,
      get_property (HttpException status msg stk) "status"
      = Return (VNumber status)
      ∧ get_property (HttpException status msg stk) "message"
        = Return (VString msg)
      ∧ get_property (HttpException status msg stk) "name"
        = Return (VString "HttpException")
      ∧ instanceof_HttpException (HttpException status msg stk) = true.
Proof.
  split; [|done].
  repeat (apply Forall_cons; split; [done|]). apply Forall_nil_2.
Qed.

(** ** The Vite plugin *)

(** X19: the transform hook of the plugin never rewrites a module:
    whatever the code and the file name, it answers [null]. *)
Theorem transform_never_rewrites (code id : string) : transform code id = None.
Proof.
  unfold transform.
  destruct (negb (endsWith ".ts" id) && negb (endsWith ".tsx" id)); [done|].
  by destruct (negb (includes "@Controller" code)
               && negb (includes "@Injectable" code)).
Qed.

(** ** From decorators to registered routes *)

Lemma decorateRoutes_reads t decls md :
  getRouteMetadata (decorateRoutes t decls md) t
  = getRouteMetadata md t
    ++ ((λ d, {| method := d.1.1;
                 path := normalize_path (default "" d.1.2);
                 propertyKey := d.2 |}) <$> decls)
  ∧ MIDDLEWARE_KEY (decorateRoutes t decls md) = MIDDLEWARE_KEY md.
Proof.
  unfold decorateRoutes.
  revert md. induction decls as [|d decls IH]; intros md; simpl.
  - by rewrite app_nil_r.
  - destruct (IH (createRouteDecorator d.1.1 d.1.2 t d.2 md)) as [-> ->].
    unfold createRouteDecorator.
    split; [|apply addRouteMetadata_other_keys].
    by rewrite getRouteMetadata_addRouteMetadata, <- app_assoc.
Qed.

(** X20: a class that has method-level route decorators and a controller
    decorator with a string prefix, and no middleware, registers one
    route per decorated method, in the order the route decorators ran:
    the verb is the decorator's, the path is the parent prefix, the
    controller prefix and the route path, the latter two each with the
    slash fix-up applied, and the only handler is the route handler bound
    to the container's instance of the class. *)
Theorem decorated_controller_routes (t : ClassRef) (p : string)
    (decls : list (string * option string * string)) (md : Metadata)
    (routes0 : list Route) (ct : gmap ClassRef Instance)
    (fuel : nat) (isDev : bool) (pfx : string) :
  getRouteMetadata md t = [] →
  middlewareRecord md t = None →
  let w := {| metadata := Controller (Some (inl p)) t (decorateRoutes t decls md);
              app := routes0; container := ct |} in
  ∃ w',
    registerController (S fuel) w t isDev pfx = Some w'
    ∧ app w'
      = routes0
        ++ ((λ d, {| route_method := d.1.1;
                     route_path := (pfx +:+ normalize_path p)
                                   +:+ normalize_path (default "" d.1.2);
                     route_handlers := [RouteHandler (instanceOf ct t) d.2] |})
              <$> decls).
Proof.
  intros Hroutes Hmw w.
  destruct (decorateRoutes_reads t decls md) as [Hr Hm].
  rewrite Hroutes in Hr. simpl in Hr.
  assert (Hc : getControllerMetadata (metadata w) t
               = Some {| prefix := normalize_path p; controllers := [] |}).
  { apply getControllerMetadata_setControllerMetadata. }
  assert (Hrw : getRouteMetadata (metadata w) t
                = (λ d, {| method := d.1.1;
                           path := normalize_path (default "" d.1.2);
                           propertyKey := d.2 |}) <$> decls) by exact Hr.
  assert (Hcm : classMiddlewaresOf (metadata w) t = []).
  { unfold middlewareRecord in Hmw.
    unfold classMiddlewaresOf, middlewareRecord; simpl. by rewrite Hm, Hmw. }
  assert (Hmm : ∀ k, methodMiddlewaresOf (metadata w) t k = []).
  { intros k. unfold middlewareRecord in Hmw.
    unfold methodMiddlewaresOf, middlewareRecord; simpl. by rewrite Hm, Hmw. }
  rewrite registerController_unfold, Hc. simpl.
  eexists. split; [reflexivity|].
  destruct (registerOwnRoutes_reads w t (pfx +:+ normalize_path p)) as [-> _].
  rewrite Hrw, <- list_fmap_compose. f_equal.
  apply list_fmap_ext. intros _ d _. unfold route_entry, compose.
  rewrite Hcm, Hmm. reflexivity.
Qed.

Lemma decorated_controller_routes_witness :
  ∃ w',
    registerController 1
      {| metadata :=
           Controller (Some (inl "api")) "ApiController"
             (decorateRoutes "ApiController"
                [("get", Some "users", "list"); ("post", None, "create")]
                empty_metadata);
         app := []; container := ∅ |}
      "ApiController" false "" = Some w'
    ∧ (λ r, (route_method r, route_path r)) <$> app w'
      = [("get", "/api/users"); ("post", "/api")].
Proof.
  destruct (decorated_controller_routes "ApiController" "api"
              [("get", Some "users", "list"); ("post", None, "create")]
              empty_metadata [] ∅ 0 false "" eq_refl eq_refl) as (w' & Hw & Ha).
  exists w'. split; [exact Hw|]. rewrite Ha. reflexivity.
Defined.
